(** * Detection of rigid subchains in kinematic chains: the evaluator of
      [degeneracy_detection.py] and the properties of its specification.

    The program is a SageMath script.  Its own functions ([mobility],
    [no_rigid_subchains], [number_assur], [graphs_from_txt]) are embedded
    below as Rocq functions that follow the Python text statement by
    statement.  The SageMath objects they call (graphs, GF(2) matroids, the
    graph6 decoder, the automorphism group) are reached through interfaces;
    a computable model of the matroid interface is given so that the
    evaluator can be run on concrete chains. *)

From Stdlib Require Import ZArith NArith Lia.
From stdpp Require Import base list strings gmap sorting pretty.

Local Open Scope Z_scope.

(** ** Python built-ins used by the script *)

Module Py.

(** [range(lo, hi)]: the integers [lo, lo+1, ..., hi-1]; empty when
    [hi <= lo]. *)
Definition range (lo hi : Z) : list Z := seqZ lo (hi - lo).

(** [len(xs)] as a Python integer. *)
Definition len {A} (xs : list A) : Z := Z.of_nat (length xs).

(** A [for x in xs:] loop whose body may execute [return r]: the body
    yields [Some r] when it returns and [None] when it falls through to
    the next iteration. *)
Fixpoint for_in {A R} (xs : list A) (body : A → option R) : option R :=
  match xs with
  | [] => None
  | x :: rest =>
      match body x with
      | Some r => Some r
      | None => for_in rest body
      end
  end.

End Py.

(** ** Graphs and their incidence matrices (Sage [Graph]) *)

(** A finite undirected graph: its vertex labels and its edges as pairs of
    end points.  The graphs of the script come out of the graph6 decoder
    with vertices [0 .. n-1]. *)
Record Graph := mkGraph {
  vertices : list nat;
  edges : list (nat * nat)
}.

(** An integer matrix, row by row, with its number of columns. *)
Record Matrix := mkMatrix {
  ncols : nat;
  rows : list (list Z)
}.

(** How often vertex [v] is an end point of edge [e] (a loop counts twice). *)
Definition incidence (v : nat) (e : nat * nat) : Z :=
  (if decide (e.1 = v) then 1 else 0) + (if decide (e.2 = v) then 1 else 0).

(** [my_graph.incidence_matrix()]: one row per vertex, one column per edge. *)
Definition incidence_matrix (g : Graph) : Matrix :=
  {| ncols := length (edges g);
     rows := (λ v, incidence v <$> edges g) <$> vertices g |}.

(** The degree of a vertex and [my_graph.degree_sequence()], the degrees in
    non-increasing order. *)
Definition degree (g : Graph) (v : nat) : Z :=
  foldr Z.add 0 (incidence v <$> edges g).

Definition degree_sequence (g : Graph) : list Z :=
  merge_sort Z.ge (degree g <$> vertices g).

(** [g'] is the graph [g] with its vertices renamed by [σ]: the vertex and
    edge lists may come in another order and each edge with its end points
    in either order. *)
Definition renamed_edge (σ : nat → nat) (e e' : nat * nat) : Prop :=
  e' = (σ e.1, σ e.2) ∨ e' = (σ e.2, σ e.1).

Definition relabelling (σ : nat → nat) (g g' : Graph) : Prop :=
  Inj (=) (=) σ ∧
  vertices g' ≡ₚ σ <$> vertices g ∧
  ∃ es, edges g' ≡ₚ es ∧ Forall2 (renamed_edge σ) (edges g) es.

(** The number of vertices of degree [i]. *)
Definition vertices_of_degree (g : Graph) (i : Z) : Z :=
  Z.of_nat (length (filter (λ v, degree g v = i) (vertices g))).

(** [d] is the largest degree of a vertex. *)
Definition max_degree (g : Graph) (d : Z) : Prop :=
  Exists (λ v, degree g v = d) (vertices g) ∧
  Forall (λ v, degree g v ≤ d) (vertices g).

(** ** The matroid operations the evaluator calls *)

Module Sage.

(** The part of Sage's matroid API that [no_rigid_subchains] uses, on a
    type [M] of matroid objects whose elements are column indices. *)
Class MatroidLib (M : Type) := {
  (** [Matroid(A, ring=GF(2))] *)
  Matroid : Matrix → M;
  (** [M.groundset()] *)
  groundset : M → list nat;
  (** [M.rank()], the rank of the whole groundset *)
  rank : M → Z;
  (** [M.dual()] *)
  dual : M → M;
  (** [M.flats(k)] *)
  flats : M → Z → list (list nat);
  (** [M.delete(X)] *)
  delete : M → list nat → M;
  (** [M.is_connected()] *)
  is_connected : M → bool
}.

End Sage.

(** ** The evaluator *)

(** [mobility(rank, joints, screw_system)] *)
Definition mobility (rank joints screw_system : Z) : Z :=
  let chain_mobility := screw_system * (rank - joints) + joints in
  chain_mobility.

Section Evaluator.
Context {M : Type} `{!Sage.MatroidLib M}.

(** The body of the inner loop of [no_rigid_subchains] for one co-flat:
    [Some false] when it executes [return False]. *)
Definition check_co_flat (my_matroid : M) (my_groundset : list nat)
    (screw_system : Z) (co_flat : list nat) : option bool :=
  let sub_matroid := Sage.delete my_matroid co_flat in
  if Sage.is_connected sub_matroid then
    let sub_groundset := Sage.groundset sub_matroid in
    let sub_rank := Sage.rank sub_matroid in
    let sub_joints := Py.len sub_groundset in
    let sub_mobility := mobility sub_rank sub_joints screw_system in
    if (sub_mobility <=? 0) && (sub_joints <? Py.len my_groundset)
    then Some false
    else None
  else None.

(** [no_rigid_subchains(my_graph, screw_system)] *)
Definition no_rigid_subchains (my_graph : Graph) (screw_system : Z) : bool :=
  let my_matroid := Sage.Matroid (incidence_matrix my_graph) in
  let my_groundset := Sage.groundset my_matroid in
  let my_rank := Sage.rank my_matroid in
  let my_dual_matroid := Sage.dual my_matroid in
  let my_dual_rank := Sage.rank my_dual_matroid in
  match
    Py.for_in (Py.range 0 (my_dual_rank + 1)) (λ co_rank,
      let co_flats := Sage.flats my_dual_matroid co_rank in
      Py.for_in co_flats
        (check_co_flat my_matroid my_groundset screw_system))
  with
  | Some verdict => verdict
  | None => true
  end.

(** The condition under which a co-flat makes the evaluator return
    [False]. *)
Definition rigid_subchain (m : M) (screw_system : Z) (F : list nat) : Prop :=
  let sub := Sage.delete m F in
  let sub_joints := Py.len (Sage.groundset sub) in
  Sage.is_connected sub = true ∧
  mobility (Sage.rank sub) sub_joints screw_system ≤ 0 ∧
  sub_joints < Py.len (Sage.groundset m).

(** Some co-rank in [0 .. rank(dual)] has a flat of the dual whose
    deletion is a rigid proper subchain. *)
Definition has_rigid_subchain (m : M) (screw_system : Z) : Prop :=
  ∃ (co_rank : Z) (F : list nat),
    0 ≤ co_rank ≤ Sage.rank (Sage.dual m) ∧
    F ∈ Sage.flats (Sage.dual m) co_rank ∧
    rigid_subchain m screw_system F.

End Evaluator.

(** ** The evaluator on the objects of a library

    In the Python program a matroid is an object of the library and a
    variable holds a reference to it.  Every method call runs code of the
    library, which may read and change whatever state the library keeps:
    the objects themselves, caches, counters.  Below [S] is that state and
    [R] the type of the references; a method takes the state and returns
    its result together with the state it leaves. *)
Module Obj.

Record Library (S R : Type) := {
  (** [Matroid(A, ring=GF(2))] *)
  Matroid : Matrix → S → R * S;
  (** [M.groundset()] *)
  groundset : R → S → list nat * S;
  (** [M.rank()] *)
  rank : R → S → Z * S;
  (** [M.dual()] *)
  dual : R → S → R * S;
  (** [M.flats(k)] *)
  flats : R → Z → S → list (list nat) * S;
  (** [M.delete(X)] *)
  delete : R → list nat → S → R * S;
  (** [M.is_connected()] *)
  is_connected : R → S → bool * S
}.
Arguments Matroid {S R} _ _ _.
Arguments groundset {S R} _ _ _.
Arguments rank {S R} _ _ _.
Arguments dual {S R} _ _ _.
Arguments flats {S R} _ _ _ _.
Arguments delete {S R} _ _ _ _.
Arguments is_connected {S R} _ _ _.

End Obj.

Section Objects.
Context {S R : Type}.

(** A computation on the state of the library. *)
Definition obj (A : Type) : Type := S → A * S.

#[global] Instance obj_ret : MRet obj := λ A a σ, (a, σ).

#[global] Instance obj_bind : MBind obj := λ A B k c σ,
  let '(a, σ') := c σ in k a σ'.

(** A [for] loop with [return] in the body, on the state of the library. *)
Fixpoint for_in_obj {A B} (xs : list A) (body : A → obj (option B))
    : obj (option B) :=
  match xs with
  | [] => mret None
  | x :: rest =>
      r ← body x;
      match r with
      | Some v => mret (Some v)
      | None => for_in_obj rest body
      end
  end.

Variable O : Obj.Library S R.

(** [no_rigid_subchains(my_graph, screw_system)], call by call. *)
Definition no_rigid_subchains_obj (my_graph : Graph) (screw_system : Z)
    : obj bool :=
  my_matroid ← Obj.Matroid O (incidence_matrix my_graph);
  my_groundset ← Obj.groundset O my_matroid;
  my_rank ← Obj.rank O my_matroid;
  my_dual_matroid ← Obj.dual O my_matroid;
  my_dual_rank ← Obj.rank O my_dual_matroid;
  verdict ←
    for_in_obj (Py.range 0 (my_dual_rank + 1)) (λ co_rank,
      co_flats ← Obj.flats O my_dual_matroid co_rank;
      for_in_obj co_flats (λ co_flat,
        sub_matroid ← Obj.delete O my_matroid co_flat;
        connected ← Obj.is_connected O sub_matroid;
        if connected : bool then
          sub_groundset ← Obj.groundset O sub_matroid;
          sub_rank ← Obj.rank O sub_matroid;
          let sub_joints := Py.len sub_groundset in
          let sub_mobility := mobility sub_rank sub_joints screw_system in
          if (sub_mobility <=? 0) && (sub_joints <? Py.len my_groundset)
          then mret (Some false)
          else mret None
        else mret None));
  mret (match verdict with
        | Some v => v
        | None => true
        end).

End Objects.

(** *** Libraries without observable state

    [den σ r] is the matroid the object behind [r] stands for in the state
    [σ], a value of a library [L] of matroid values.  A call keeps the
    objects when every object that stood for a matroid before the call
    stands for the same matroid after it.  The library is observably pure
    when each method returns what [L] returns on the matroid its object
    stands for, gives a new object the matroid [L] builds, and keeps the
    objects.  State that no method shows, a cache or a counter, may change
    at every call. *)
Section Contract.
Context {S R V : Type}.
Variable O : Obj.Library S R.
Variable L : Sage.MatroidLib V.
Variable den : S → R → option V.

Definition keeps (σ σ' : S) : Prop :=
  ∀ r m, den σ r = Some m → den σ' r = Some m.

Record observably_pure : Prop := {
  pure_Matroid A σ :
    den (Obj.Matroid O A σ).2 (Obj.Matroid O A σ).1
      = Some (@Sage.Matroid V L A) ∧
    keeps σ (Obj.Matroid O A σ).2;
  pure_groundset r m σ :
    den σ r = Some m →
    (Obj.groundset O r σ).1 = @Sage.groundset V L m ∧
    keeps σ (Obj.groundset O r σ).2;
  pure_rank r m σ :
    den σ r = Some m →
    (Obj.rank O r σ).1 = @Sage.rank V L m ∧
    keeps σ (Obj.rank O r σ).2;
  pure_dual r m σ :
    den σ r = Some m →
    den (Obj.dual O r σ).2 (Obj.dual O r σ).1 = Some (@Sage.dual V L m) ∧
    keeps σ (Obj.dual O r σ).2;
  pure_flats r m k σ :
    den σ r = Some m →
    (Obj.flats O r k σ).1 = @Sage.flats V L m k ∧
    keeps σ (Obj.flats O r k σ).2;
  pure_delete r m X σ :
    den σ r = Some m →
    den (Obj.delete O r X σ).2 (Obj.delete O r X σ).1
      = Some (@Sage.delete V L m X) ∧
    keeps σ (Obj.delete O r X σ).2;
  pure_is_connected r m σ :
    den σ r = Some m →
    (Obj.is_connected O r σ).1 = @Sage.is_connected V L m ∧
    keeps σ (Obj.is_connected O r σ).2
}.

End Contract.

(** *** Two libraries with state

    Both keep their objects in a list, in creation order; a reference is an
    index into it.  [counting] also counts the calls it has served, a state
    that changes at every call and that no method shows.  [one_answer]
    answers the first connectivity question it is asked and says [False]
    to every later one: a state that its results depend on. *)
Section Heaps.
Context {V : Type}.
Variable L : Sage.MatroidLib V.

Definition heap_new {T} (next : T → T) (m : V) : obj (S := list V * T) nat :=
  λ '(objs, t), (length objs, (objs ++ [m], next t)).

Definition heap_read {T A} (next : T → T) (f : V → A) (none : A) (r : nat)
    : obj (S := list V * T) A :=
  λ '(objs, t), (from_option f none (objs !! r), (objs, next t)).

Definition heap_derive {T} (next : T → T) (f : V → V) (r : nat)
    : obj (S := list V * T) nat :=
  λ '(objs, t),
    match objs !! r with
    | Some m => (length objs, (objs ++ [f m], next t))
    | None => (r, (objs, next t))
    end.

Definition counting : Obj.Library (list V * nat) nat := {|
  Obj.Matroid A := heap_new S (@Sage.Matroid V L A);
  Obj.groundset := heap_read S (@Sage.groundset V L) [];
  Obj.rank := heap_read S (@Sage.rank V L) 0;
  Obj.dual := heap_derive S (@Sage.dual V L);
  Obj.flats r k := heap_read S (λ m, @Sage.flats V L m k) [] r;
  Obj.delete r X := heap_derive S (λ m, @Sage.delete V L m X) r;
  Obj.is_connected := heap_read S (@Sage.is_connected V L) false
|}.

Definition one_answer : Obj.Library (list V * bool) nat := {|
  Obj.Matroid A := heap_new id (@Sage.Matroid V L A);
  Obj.groundset := heap_read id (@Sage.groundset V L) [];
  Obj.rank := heap_read id (@Sage.rank V L) 0;
  Obj.dual := heap_derive id (@Sage.dual V L);
  Obj.flats r k := heap_read id (λ m, @Sage.flats V L m k) [] r;
  Obj.delete r X := heap_derive id (λ m, @Sage.delete V L m X) r;
  Obj.is_connected r := λ '(objs, asked),
    (if asked : bool then false
     else from_option (@Sage.is_connected V L) false (objs !! r),
     (objs, true))
|}.

(** The matroid behind a reference of a heap. *)
Definition heap_den {T} (σ : list V * T) (r : nat) : option V := σ.1 !! r.

End Heaps.

(** ** A computable model of the matroid operations

    SageMath's matroid library is not part of the repository.  The model
    below gives its operations the meaning the specification states for
    them (sections 3, 4.1 and 4.2), computed the way SageMath's generic
    matroid class computes them. *)

(** Linear algebra over GF(2).  A column is a bit vector of type [N]: bit [i]
    is the entry in row [i]; addition of columns is [N.lxor]. *)
Module GF2.

Definition of_bits (bs : list bool) : N :=
  foldr (λ (b : bool) n, (N.b2n b + 2 * n)%N) 0%N bs.

(** Column [j] of an integer matrix, its entries taken modulo 2. *)
Definition column (A : Matrix) (j : nat) : N :=
  of_bits ((λ row : list Z, Z.odd (default 0 (row !! j))) <$> rows A).

(** Clear in [v] the leading bit of every vector of the echelon list [B],
    oldest vector first. *)
Definition reduce (B : list N) (v : N) : N :=
  foldl (λ w b, if N.testbit w (N.log2 b) then N.lxor w b else w) v B.

(** One elimination step: keep what is left of [v] when it is not zero. *)
Definition add_vector (B : list N) (v : N) : list N :=
  let w := reduce B v in
  if (w =? 0)%N then B else B ++ [w].

Definition echelon (vs : list N) : list N := foldl add_vector [] vs.

(** The rank of a list of columns: the number of pivots of the elimination. *)
Definition rank (vs : list N) : Z := Py.len (echelon vs).

(** The span of a list of columns. *)
Inductive span (l : list N) : N → Prop :=
  | span_zero : span l 0%N
  | span_add v w : v ∈ l → span l w → span l (N.lxor v w).

(** A list of pivots: non-zero vectors with pairwise different leading
    bits. *)
Definition pivots (B : list N) : Prop :=
  Forall (λ b, b ≠ 0%N) B ∧ NoDup (N.log2 <$> B).

(** An echelon list: non-zero vectors, each with a zero at the leading bit
    of every earlier one. *)
Fixpoint triangular (B : list N) : Prop :=
  match B with
  | [] => True
  | b :: B' =>
      b ≠ 0%N ∧ Forall (λ b', N.testbit b' (N.log2 b) = false) B' ∧
      triangular B'
  end.

End GF2.

Module SageModel.

(** A matroid object: its groundset and its rank function on lists of
    elements. *)
Record matroid := mk {
  E : list nat;
  rk : list nat → Z
}.

(** Modelled from the spec: [Matroid(A, ring=GF(2))], the binary matroid of
    a 0/1 matrix.  The groundset is [range(ncols)], one element per column;
    the rank of a subset is the rank over the two-element field of the
    sub-matrix of its columns. *)
Definition binary (A : Matrix) : matroid :=
  {| E := seq 0 (ncols A);
     rk X := GF2.rank (GF2.column A <$> X) |}.

(** The column of [e] is a combination of the columns of [X]. *)
Definition in_span (A : Matrix) (X : list nat) (e : nat) : Prop :=
  GF2.span (GF2.column A <$> X) (GF2.column A e).

(** [M.rank()] *)
Definition full_rank (m : matroid) : Z := rk m (E m).

(** Modelled from the spec: [M.dual()], the matroid on the same groundset
    with [rank(S) = |S| - rank(groundset) + rank(groundset \ S)], the
    corank of [S] in [M]. *)
Definition dual (m : matroid) : matroid :=
  {| E := E m;
     rk X := Py.len X + rk m (list_difference (E m) X) - full_rank m |}.

(** Modelled from the spec: [M.delete(X)], a new matroid whose groundset is
    the complement of [X] and whose rank function is that of [M]. *)
Definition delete (m : matroid) (X : list nat) : matroid :=
  {| E := list_difference (E m) X;
     rk := rk m |}.

(** All subsets of a groundset, each as a list in groundset order. *)
Fixpoint sublists {A} (l : list A) : list (list A) :=
  match l with
  | [] => [[]]
  | x :: l' => sublists l' ++ ((x ::.) <$> sublists l')
  end.

(** Modelled from the spec: [F] is closed when adding any element outside
    [F] strictly increases the rank. *)
Definition is_flat (m : matroid) (F : list nat) : Prop :=
  Forall (λ e, e ∈ F ∨ rk m F < rk m (F ++ [e])) (E m).

(** Modelled from the spec: [M.flats(k)], every closed subset of the
    groundset of rank [k], each once.  The order is that of the
    enumeration of the subsets; the evaluator does not depend on it. *)
Definition flats (m : matroid) (k : Z) : list (list nat) :=
  filter (λ F, is_flat m F ∧ rk m F = k) (sublists (E m)).

(** [M.loops()], the elements of rank 0, and [M.coloops()], the loops of the
    dual. *)
Definition loops (m : matroid) : list nat :=
  filter (λ e, rk m [e] = 0) (E m).

Definition coloops (m : matroid) : list nat := loops (dual m).

(** [M.basis()]: scan the groundset and keep what raises the rank. *)
Definition basis (m : matroid) : list nat :=
  foldl (λ B e, if decide (rk m B < rk m (B ++ [e])) then B ++ [e] else B)
        [] (E m).

(** [M.circuit(X)] for a dependent [X]: drop every element whose removal
    leaves the set dependent.  The second component is the rank an
    independent remainder would have. *)
Definition circuit (m : matroid) (X : list nat) : list nat :=
  (foldl (λ '(Z, l) x,
            let Z' := list_difference Z [x] in
            if decide (rk m Z' = l) then (Z, l) else (Z', l - 1))
         (X, Py.len X - 1) X).1.

(** [M.components()]: start from singletons and merge the components met
    by each fundamental circuit of the basis (the union-find over elements
    that share a circuit). *)
Definition merge_circuit (C : list nat) (components : list (list nat))
    : list (list nat) :=
  let '(C', components2) :=
    foldl (λ '(C, components2) comp,
             if decide (list_intersection C comp ≠ [])
             then (list_union C comp, components2)
             else (C, components2 ++ [comp]))
          (C, []) components in
  components2 ++ [C'].

Definition components (m : matroid) : list (list nat) :=
  let B := basis m in
  foldl (λ components e, merge_circuit (circuit m (B ++ [e])) components)
        ((λ e, [e]) <$> E m)
        (list_difference (E m) B).

(** Modelled from the spec: [M.is_connected()], no non-trivial direct-sum
    decomposition, computed from the elements that share a circuit.  As in
    SageMath the test is that there is exactly one component; the matroid
    without elements has none and is not connected. *)
Definition is_connected (m : matroid) : bool :=
  bool_decide (length (components m) = 1%nat).

#[export] Instance matroid_lib : Sage.MatroidLib matroid := {|
  Sage.Matroid := binary;
  Sage.groundset := E;
  Sage.rank := full_rank;
  Sage.dual := dual;
  Sage.flats := flats;
  Sage.delete := delete;
  Sage.is_connected := is_connected
|}.

End SageModel.

(** ** Exceptions and strings of the script *)

Inductive exn :=
  | IndexError          (* [s[-1]] or [xs[0]] on an empty sequence *)
  | ValueError          (* [max] of an empty sequence *)
  | RuntimeError        (* raised by the graph6 decoder *)
  | FileNotFoundError.  (* [open] of a missing input file *)

(** A computation that returns a value or raises. *)
Inductive result (A : Type) : Type :=
  | Ok (a : A)
  | Raise (e : exn).
Arguments Ok {A} a.
Arguments Raise {A} e.

#[global] Instance result_ret : MRet result := λ A a, Ok a.
#[global] Instance result_bind : MBind result := λ A B k r,
  match r with
  | Ok a => k a
  | Raise e => Raise e
  end.

Module PyStr.

Definition newline : Ascii.ascii := Ascii.ascii_of_nat 10.

(** [s[-1]] *)
Fixpoint last_char (s : string) : result Ascii.ascii :=
  match s with
  | EmptyString => Raise IndexError
  | String c EmptyString => Ok c
  | String _ rest => last_char rest
  end.

(** [s.replace(old, new)] for a non-empty [old]: scan from the left; where
    [old] starts, emit [new] and skip the rest of the occurrence ([skip]
    counts the characters of it still to drop). *)
Fixpoint replace_from (old new s : string) (skip : nat) : string :=
  match s with
  | EmptyString => EmptyString
  | String c rest =>
      match skip with
      | S k => replace_from old new rest k
      | O =>
          if String.prefix old s
          then new +:+ replace_from old new rest (String.length old - 1)
          else String c (replace_from old new rest 0)
      end
  end.

(** [s.replace(old, new)]; an empty [old] matches before every character
    and at the end. *)
Definition replace (s old new : string) : string :=
  match old with
  | EmptyString =>
      new +:+ String.concat ""
                ((λ c, String c new) <$> String.list_ascii_of_string s)
  | _ => replace_from old new s 0
  end.

(** [str(n)] for an integer and [str(xs)] for a list of integers. *)
Definition str (n : Z) : string := pretty n.

Definition str_list (xs : list Z) : string :=
  "[" +:+ String.concat ", " (str <$> xs) +:+ "]".

(** The lines a text file yields when it is iterated: each keeps its
    newline; only the last may lack one. *)
Fixpoint lines (content : string) : list string :=
  match content with
  | EmptyString => []
  | String c rest =>
      if decide (c = newline) then String c EmptyString :: lines rest
      else match lines rest with
           | [] => [String c EmptyString]
           | l :: ls => String c l :: ls
           end
  end.

End PyStr.

(** ** The degree partition *)

(** [max(xs)] *)
Definition py_max (xs : list Z) : result Z :=
  match xs with
  | [] => Raise ValueError
  | x :: rest => Ok (foldl Z.max x rest)
  end.

(** [xs.count(i)] *)
Definition count (xs : list Z) (i : Z) : Z :=
  Py.len (filter (λ x, x = i) xs).

(** [[graph_deg_sequence.count(i) for i in
      range(2, max(graph_deg_sequence) + 1)]] *)
Definition partition (graph_deg_sequence : list Z) : result (list Z) :=
  top ← py_max graph_deg_sequence;
  mret (count graph_deg_sequence <$> Py.range 2 (top + 1)).

(** ** Files and the classifier loop *)

(** The files the script appends to, by path.  A computation of the script
    runs on a file store; the store survives an exception. *)
Definition io (A : Type) : Type :=
  gmap string string → result A * gmap string string.

#[global] Instance io_ret : MRet io := λ A a fs, (Ok a, fs).

#[global] Instance io_bind : MBind io := λ A B k c fs,
  match c fs with
  | (Ok a, fs') => k a fs'
  | (Raise e, fs') => (Raise e, fs')
  end.

(** A pure computation inside a file computation. *)
Definition io_lift {A} (r : result A) : io A := λ fs, (r, fs).

(** [with open(path, "a") as f: f.write(text)].  Opening a file for
    appending raises when the directory of the path is missing or the file
    may not be written: [open_error path] is the exception [open] raises for
    [path], if any.  The script creates no directory and changes no
    permission, so this does not change while it runs.  When [open] raises
    no file is created. *)
Definition append_file (open_error : string → option exn)
    (path text : string) : io unit :=
  λ fs, match open_error path with
        | Some e => (Raise e, fs)
        | None =>
            (Ok (), <[path := default EmptyString (fs !! path) +:+ text]> fs)
        end.

(** [open(path)] for reading: the content of the file. *)
Definition read_file (path : string) : io string :=
  λ fs, match fs !! path with
        | Some content => (Ok content, fs)
        | None => (Raise FileNotFoundError, fs)
        end.

(** A [for] loop without [return] over the lines of a file. *)
Fixpoint io_for {A} (xs : list A) (body : A → io unit) : io unit :=
  match xs with
  | [] => mret ()
  | x :: rest => body x;; io_for rest body
  end.

(** ** The graph6 format, short form

    A graph on [n ≤ 62] vertices is the character [n + 63] followed by the
    upper triangle of its adjacency matrix, column by column, six bits per
    character (the bits as a number plus 63, most significant bit first),
    padded with zeros. *)
Module Graph6.

(** The six bits of one data character. *)
Definition sextet (c : Ascii.ascii) : result (list bool) :=
  let k := Ascii.nat_of_ascii c in
  if decide (63 ≤ k ≤ 126)%nat then
    Ok ((λ i, N.testbit (N.of_nat (k - 63)) (N.of_nat (5 - i))) <$> seq 0 6)
  else Raise RuntimeError.

(** The pairs [(j, i)], [j < i < n], in the order of the bits. *)
Definition pairs (n : nat) : list (nat * nat) :=
  i ← seq 0 n; (λ j, (j, i)) <$> seq 0 i.

(** The number of bits for [n] vertices: [n (n - 1) / 2] rounded up to a
    multiple of six. *)
Definition expected_bits (n : nat) : nat :=
  (6 * ((n * (n - 1) / 2 + 5) / 6))%nat.

(** The decoder: it fails on an empty string, on a character outside the
    alphabet and on a string whose length does not fit its vertex count. *)
Definition from_graph6 (s : string) : result Graph :=
  match s with
  | EmptyString => Raise IndexError
  | String c data =>
      let k := Ascii.nat_of_ascii c in
      if decide (63 ≤ k < 126)%nat then
        let n := (k - 63)%nat in
        sextets ← mapM sextet (String.list_ascii_of_string data);
        let bits := concat sextets in
        if decide (length bits = expected_bits n) then
          Ok {| vertices := seq 0 n;
                edges := zip (pairs n) bits ≫=
                           (λ '(e, b), if b : bool then [e] else []) |}
        else Raise RuntimeError
      else Raise RuntimeError
  end.

End Graph6.

Section Classifier.
Context {M : Type} `{!Sage.MatroidLib M}.

(** The graph6 decoder [from_graph6(Graph(), s)], the orbits of
    [automorphism_group(return_group=False, orbits=True)], and the paths
    that cannot be opened for appending. *)
Variable from_graph6 : string → result Graph.
Variable automorphism_orbits : Graph → list (list nat).
Variable open_error : string → option exn.

(** [number_assur(my_graph)] *)
Definition number_assur (my_graph : Graph) : result string :=
  let graph_orbits := automorphism_orbits my_graph in
  orbit_candidates ←
    mapM (λ vertex : list nat,
            match vertex with
            | [] => Raise IndexError
            | v :: _ => Ok v
            end) graph_orbits;
  let number_orbits := Py.len orbit_candidates in
  let number_orbits := PyStr.str number_orbits in
  mret number_orbits.

(** The string handed to the decoder: [line.replace(line[-1], "")]. *)
Definition g6_string_of (line : string) : result string :=
  c ← PyStr.last_char line;
  mret (PyStr.replace line (String c EmptyString) EmptyString).

(** The body of the loop of [graphs_from_txt] for one line. *)
Definition classify_line (graph_write line : string) : io unit :=
  g6_string ← io_lift (g6_string_of line);
  my_graph ← io_lift (from_graph6 g6_string);
  let graph_deg_sequence := degree_sequence my_graph in
  partition ← io_lift (partition graph_deg_sequence);
  if no_rigid_subchains my_graph 3 then
    append_file open_error
                (graph_write +:+ "baranov_" +:+ PyStr.str_list partition)
                (g6_string +:+ String PyStr.newline EmptyString);;
    assur_per_graph ← io_lift (number_assur my_graph);
    append_file open_error
                (graph_write +:+ "assur_" +:+ PyStr.str_list partition)
                (assur_per_graph +:+ String PyStr.newline EmptyString)
  else mret ().

(** [graphs_from_txt(graph_path, graph_write)] *)
Definition graphs_from_txt (graph_path graph_write : string) : io unit :=
  infile ← read_file graph_path;
  io_for (PyStr.lines infile) (classify_line graph_write).

End Classifier.

(** ** Example chains *)

(** The four-bar linkage: a cycle of four links. *)
Definition four_bar : Graph :=
  {| vertices := [0; 1; 2; 3]%nat;
     edges := [(0, 1); (1, 2); (2, 3); (0, 3)]%nat |}.

(** A triangle with a pendant edge. *)
Definition tri_pendant : Graph :=
  {| vertices := [0; 1; 2; 3]%nat;
     edges := [(0, 1); (1, 2); (0, 2); (2, 3)]%nat |}.



(** The complete graph on four vertices less one edge, with degree sequence
    [3, 3, 2, 2], and the same graph with its vertices renamed and its
    edges listed in another order. *)
Definition diamond : Graph :=
  {| vertices := [0; 1; 2; 3]%nat;
     edges := [(0, 1); (0, 2); (0, 3); (1, 2); (2, 3)]%nat |}.

Definition diamond' : Graph :=
  {| vertices := [3; 1; 4; 2]%nat;
     edges := [(3, 4); (2, 3); (1, 2); (1, 4); (2, 4)]%nat |}.

(** The orbits of a vertex-transitive graph such as the four-bar linkage or
    the complete graph: all vertices in one orbit. *)
Definition one_orbit (g : Graph) : list (list nat) := [vertices g].

(** A directory in which every file can be opened for appending, and a
    working directory without ["my_output/"]. *)
Definition all_writable (path : string) : option exn := None.

Definition no_output_directory (path : string) : option exn :=
  if String.prefix "my_output/" path then Some FileNotFoundError else None.

(** A line of a text file: the text and its newline. *)
Definition text_line (text : string) : string :=
  text +:+ String PyStr.newline EmptyString.

(** The renaming [v ↦ 4 - v] of the vertices [0 .. 4]. *)
Definition flip4 (v : nat) : nat :=
  if decide (v ≤ 4)%nat then (4 - v)%nat else v.


(** ** The same library with its flats listed differently *)

(** SageMath does not fix the order in which [M.flats(k)] lists the flats.
    [with_flats L flats'] is the library [L] with [flats'] in the place of
    its [flats]. *)
Definition with_flats {M : Type} (L : Sage.MatroidLib M)
    (flats' : M → Z → list (list nat)) : Sage.MatroidLib M :=
  {| Sage.Matroid := @Sage.Matroid M L;
     Sage.groundset := @Sage.groundset M L;
     Sage.rank := @Sage.rank M L;
     Sage.dual := @Sage.dual M L;
     Sage.flats := flats';
     Sage.delete := @Sage.delete M L;
     Sage.is_connected := @Sage.is_connected M L |}.

(** ** Triangles *)

(** The edge [e] joins [p] and [q], in either order. *)
Definition joins (e : nat * nat) (p q : nat) : Prop :=
  e = (p, q) ∨ e = (q, p).

(** The edges number [a], [b] and [c] of [g] form a triangle on three
    different vertices [u], [v] and [w] of [g]. *)
Definition triangle (g : Graph) (a b c u v w : nat) : Prop :=
  (∃ ea eb ec,
     edges g !! a = Some ea ∧ edges g !! b = Some eb ∧
     edges g !! c = Some ec ∧
     joins ea u v ∧ joins eb v w ∧ joins ec u w) ∧
  u ∈ vertices g ∧ v ∈ vertices g ∧ w ∈ vertices g ∧
  u ≠ v ∧ v ≠ w ∧ u ≠ w.

(** The complement of three elements in the groundset of the matroid of a
    matrix. *)
Definition tri_co_flat (A : Matrix) (a b c : nat) : list nat :=
  list_difference (SageModel.E (SageModel.binary A)) [a; b; c].

(** The rows in which the vertex [p] stands, as a column. *)
Definition indicator (vs : list nat) (p : nat) : N :=
  GF2.of_bits ((λ v, bool_decide (v = p)) <$> vs).

(** ** Listing the input files *)

Module OsPath.

(** [os.path.join(a, b)] for POSIX paths: an absolute [b] replaces [a];
    otherwise [b] is appended, after a separator unless [a] is empty or ends
    with one. *)
Definition join (a b : string) : string :=
  if String.prefix "/" b then b
  else match PyStr.last_char a with
       | Raise _ => b
       | Ok c =>
           if decide (c = Ascii.ascii_of_nat 47) then a +:+ b
           else a +:+ "/" +:+ b
       end.

End OsPath.

(** [xs.remove(x)]: drop the first occurrence of [x]; [ValueError] when
    there is none. *)
Fixpoint list_remove (x : string) (xs : list string) : result (list string) :=
  match xs with
  | [] => Raise ValueError
  | y :: rest =>
      if decide (y = x) then Ok rest
      else rest' ← list_remove x rest; mret (y :: rest')
  end.

Section Listing.

(** [os.listdir(path)], the names in a directory, and [os.path.isfile]. *)
Variable listdir : string → result (list string).
Variable isfile : string → bool.

(** [list_subfiles(my_path)] *)
Definition list_subfiles (my_path : string) : result (list string) :=
  names ← listdir my_path;
  let input_files :=
    filter (λ graph_file, isfile (OsPath.join my_path graph_file) = true)
           names in
  let input_files :=
    match list_remove "desktop.ini" input_files with
    | Ok without => without
    | Raise _ => input_files
    end in
  let input_files := (λ graph_file, my_path +:+ graph_file) <$> input_files in
  mret input_files.

End Listing.

Section Process.
Context {M : Type} `{!Sage.MatroidLib M}.
Variable from_graph6 : string → result Graph.
Variable automorphism_orbits : Graph → list (list nat).
Variable open_error : string → option exn.

(** [process(graph_path)] *)
Definition process (graph_path : string) : io unit :=
  let graph_write := "my_output/" in
  graphs_from_txt from_graph6 automorphism_orbits open_error graph_path
    graph_write.

End Process.

(** ** What a run may do to the files *)

(** [path] is one of the two output files of some partition under
    [graph_write]. *)
Definition output_path (graph_write path : string) : Prop :=
  ∃ key : list Z,
    path = graph_write +:+ "baranov_" +:+ PyStr.str_list key ∨
    path = graph_write +:+ "assur_" +:+ PyStr.str_list key.

(** Every file of [fs] is still there in [fs'], with text added at its end
    at most. *)
Definition extends (fs fs' : gmap string string) : Prop :=
  ∀ path old, fs !! path = Some old →
    ∃ added, fs' !! path = Some (old +:+ added).

(** [fs] and [fs'] agree on every path outside [P]. *)
Definition same_outside (P : string → Prop) (fs fs' : gmap string string)
    : Prop :=
  ∀ path, ¬ P path → fs' !! path = fs !! path.

(** ** Further examples *)

(** A directory listing with the Windows folder file among the inputs; the
    directory is listed under its name with and without the final slash. *)
Definition sample_listdir (path : string) : result (list string) :=
  if decide (path = "my_input/" ∨ path = "my_input")
  then Ok ["a.txt"; "desktop.ini"; "sub"; "b.txt"]
  else Raise FileNotFoundError.

Definition sample_isfile (path : string) : bool :=
  bool_decide (path ∈ ["my_input/a.txt"; "my_input/desktop.ini";
                       "my_input/b.txt"]).
(** * Properties *)

(** ** Loops with an early [return] *)

Lemma for_in_None {A R} (xs : list A) (body : A → option R) :
  Py.for_in xs body = None ↔ ∀ x, x ∈ xs → body x = None.
Proof.
  induction xs as [|x xs IH]; simpl.
  - split; [intros _ y Hy; inversion Hy | done].
  - destruct (body x) as [r|] eqn:Hx.
    + split; [done|]. intros Hall. specialize (Hall x (list_elem_of_here _ _)).
      congruence.
    + rewrite IH. split.
      * intros Hall y Hy. apply elem_of_cons in Hy as [->|Hy]; auto.
      * intros Hall y Hy. apply Hall. by apply list_elem_of_further.
Qed.

Lemma for_in_Some {A R} (xs : list A) (body : A → option R) (r : R) :
  Py.for_in xs body = Some r → ∃ x, x ∈ xs ∧ body x = Some r.
Proof.
  induction xs as [|x xs IH]; simpl; [done|].
  destruct (body x) as [r'|] eqn:Hx.
  - intros [= ->]. exists x. split; [apply list_elem_of_here | done].
  - intros Hr. destruct (IH Hr) as (y & Hy & Hby).
    exists y. split; [by apply list_elem_of_further | done].
Qed.

Lemma elem_of_range (lo hi k : Z) : k ∈ Py.range lo hi ↔ lo ≤ k < hi.
Proof. unfold Py.range. rewrite elem_of_seqZ. lia. Qed.

Section EvaluatorFacts.
Context {M : Type} `{!Sage.MatroidLib M}.

Lemma check_co_flat_Some m screw_system F verdict :
  check_co_flat m (Sage.groundset m) screw_system F = Some verdict ↔
  verdict = false ∧ rigid_subchain m screw_system F.
Proof.
  unfold check_co_flat, rigid_subchain; simpl.
  destruct (Sage.is_connected _);
    [|split; [done | by intros (_ & [=] & _)]].
  destruct (_ <=? 0) eqn:Hmob; destruct (_ <? _) eqn:Hsize; simpl;
    rewrite ?Z.leb_le, ?Z.leb_gt, ?Z.ltb_lt, ?Z.ltb_ge in *;
    (split; [intros [= <-] || intros [=] | intros (-> & _ & ? & ?)]);
    try done; try lia.
Qed.

Lemma check_co_flat_None m screw_system F :
  check_co_flat m (Sage.groundset m) screw_system F = None ↔
  ¬ rigid_subchain m screw_system F.
Proof.
  destruct (check_co_flat _ _ _ F) as [verdict|] eqn:Hc.
  - apply check_co_flat_Some in Hc as [_ Hr]. split; [done | tauto].
  - split; [|done]. intros _ Hr.
    assert (check_co_flat m (Sage.groundset m) screw_system F = Some false)
      by (by apply check_co_flat_Some).
    congruence.
Qed.

Lemma no_rigid_subchains_false (g : Graph) (screw_system : Z) :
  no_rigid_subchains g screw_system = false ↔
  has_rigid_subchain (Sage.Matroid (incidence_matrix g)) screw_system.
Proof.
  unfold no_rigid_subchains, has_rigid_subchain; simpl.
  set (m := Sage.Matroid (incidence_matrix g)).
  destruct (Py.for_in (Py.range _ _) _) as [verdict|] eqn:Hloop.
  - apply for_in_Some in Hloop as (co_rank & Hrange & Hinner).
    apply for_in_Some in Hinner as (F & HF & Hcheck).
    apply check_co_flat_Some in Hcheck as [-> Hrigid].
    split; [intros _|done].
    exists co_rank, F. apply elem_of_range in Hrange.
    split; [lia|done].
  - split; [done|]. intros (co_rank & F & Hrange & HF & Hrigid).
    rewrite for_in_None in Hloop.
    specialize (Hloop co_rank). rewrite elem_of_range in Hloop.
    assert (Hinner := Hloop ltac:(lia)). simpl in Hinner.
    rewrite for_in_None in Hinner.
    apply Hinner, check_co_flat_None in HF. done.
Qed.

(** A candidate that is not smaller than the whole matroid never makes the
    evaluator return. *)
Lemma check_co_flat_not_smaller m screw_system F :
  Py.len (Sage.groundset m) ≤ Py.len (Sage.groundset (Sage.delete m F)) →
  check_co_flat m (Sage.groundset m) screw_system F = None.
Proof.
  intros Hsize. apply check_co_flat_None. intros (_ & _ & Hlt). lia.
Qed.

(** C1: [no_rigid_subchains] returns [False] exactly when, for some
    co-rank between 0 and the rank of the dual, some flat of the dual of
    that rank has a connected deletion whose mobility
    [screw_system * (rank - size) + size] is at most 0 and whose
    groundset is smaller than that of the whole matroid; in every other
    case it returns [True]. *)
Theorem no_rigid_subchains_spec (g : Graph) (screw_system : Z) :
  let m := Sage.Matroid (incidence_matrix g) in
  let found :=
    ∃ (co_rank : Z) (F : list nat),
      0 ≤ co_rank ≤ Sage.rank (Sage.dual m) ∧
      F ∈ Sage.flats (Sage.dual m) co_rank ∧
      Sage.is_connected (Sage.delete m F) = true ∧
      screw_system *
        (Sage.rank (Sage.delete m F)
         - Py.len (Sage.groundset (Sage.delete m F)))
        + Py.len (Sage.groundset (Sage.delete m F)) ≤ 0 ∧
      Py.len (Sage.groundset (Sage.delete m F)) < Py.len (Sage.groundset m)
  in
  (no_rigid_subchains g screw_system = false ↔ found) ∧
  (no_rigid_subchains g screw_system = true ↔ ¬ found).
Proof.
  intros m found.
  assert (Hfalse : no_rigid_subchains g screw_system = false ↔ found)
    by apply no_rigid_subchains_false.
  split; [done|].
  rewrite <- Hfalse.
  destruct (no_rigid_subchains g screw_system); split; congruence.
Qed.

End EvaluatorFacts.

(** ** The evaluator on concrete chains *)

Module Chains.
Import SageModel.

(** The cycle matroid of the four-bar linkage is the uniform matroid of
    rank 3 on 4 elements; its dual has rank 1, the empty set is its only
    flat of rank 0 and the whole groundset its only flat of rank 1. *)
Lemma four_bar_matroid :
  let m := binary (incidence_matrix four_bar) in
  E m = [0; 1; 2; 3]%nat ∧ full_rank m = 3 ∧ full_rank (dual m) = 1 ∧
  flats (dual m) 0 = [[]] ∧ flats (dual m) 1 = [[0; 1; 2; 3]%nat].
Proof. vm_compute. done. Qed.

(** The deletion of the whole groundset is the empty matroid, which has no
    component and is not connected. *)
Lemma four_bar_delete_all :
  let m := binary (incidence_matrix four_bar) in
  E (delete m [0; 1; 2; 3]%nat) = [] ∧
  is_connected (delete m [0; 1; 2; 3]%nat) = false.
Proof. vm_compute. done. Qed.

(** C4: the cycle matroid of the four-bar linkage has 4 elements and rank
    3, and [no_rigid_subchains] returns [True] on it with screw system 3:
    no flat of the dual has a connected deletion of non-positive mobility
    that is smaller than the whole matroid. *)
Theorem four_bar_no_rigid_subchains :
  let m := binary (incidence_matrix four_bar) in
  Py.len (Sage.groundset m) = 4 ∧ Sage.rank m = 3 ∧
  no_rigid_subchains (M := matroid) four_bar 3 = true ∧
  ¬ has_rigid_subchain m 3.
Proof.
  assert (Hrun : no_rigid_subchains (M := matroid) four_bar 3 = true)
    by (vm_compute; done).
  split; [done|]. split; [by vm_compute|]. split; [done|].
  intros Hfound.
  pose proof (proj2 (no_rigid_subchains_false (M := matroid) four_bar 3) Hfound).
  congruence.
Qed.

End Chains.

(** ** Rank over GF(2) *)

Module GF2Facts.
Import GF2.
Local Open Scope N_scope.

Lemma span_elem l v : v ∈ l → span l v.
Proof.
  intros Hv. rewrite <- (N.lxor_0_r v). by apply span_add, span_zero.
Qed.

Lemma span_lxor l a b : span l a → span l b → span l (N.lxor a b).
Proof.
  induction 1 as [|v w Hv Hw IH]; intros Hb.
  - by rewrite N.lxor_0_l.
  - rewrite N.lxor_assoc. apply span_add; auto.
Qed.

Lemma span_trans l l' v :
  (∀ x, x ∈ l → span l' x) → span l v → span l' v.
Proof.
  intros Hsub. induction 1 as [|x w Hx Hw IH]; [apply span_zero|].
  apply span_lxor; auto.
Qed.

Lemma span_mono l l' v : l ⊆ l' → span l v → span l' v.
Proof. intros Hsub. apply span_trans. intros x Hx. apply span_elem; auto. Qed.

(** Either [v] or [v + b] avoids the first vector [b]. *)
Lemma span_cons_inv b l v :
  span (b :: l) v → span l v ∨ span l (N.lxor v b).
Proof.
  induction 1 as [|x w Hx Hw [IH|IH]].
  - left. apply span_zero.
  - apply elem_of_cons in Hx as [->|Hx].
    + right. rewrite (N.lxor_comm b w), N.lxor_assoc, N.lxor_nilpotent,
        N.lxor_0_r. done.
    + left. by apply span_add.
  - apply elem_of_cons in Hx as [->|Hx].
    + left. by rewrite N.lxor_comm.
    + right. rewrite N.lxor_assoc. by apply span_add.
Qed.

(** *** Leading bits *)

Lemma testbit_log2 a : a ≠ 0 → N.testbit a (N.log2 a) = true.
Proof. intros Ha. apply N.bit_log2. done. Qed.

Lemma testbit_true_le_log2 a n : N.testbit a n = true → n ≤ N.log2 a.
Proof.
  intros Hbit. destruct (N.le_gt_cases n (N.log2 a)) as [|Hlt]; [done|].
  rewrite N.bits_above_log2 in Hbit by done. done.
Qed.

Lemma log2_lxor_lt a b :
  b ≠ 0 → (a = 0 ∨ N.log2 a < N.log2 b) →
  N.lxor a b ≠ 0 ∧ N.log2 (N.lxor a b) = N.log2 b.
Proof.
  intros Hb Ha.
  assert (Hbit : N.testbit (N.lxor a b) (N.log2 b) = true).
  { rewrite N.lxor_spec, (testbit_log2 b Hb).
    destruct Ha as [->|Hlt]; [by rewrite N.bits_0|].
    by rewrite N.bits_above_log2. }
  split.
  - intros Hz. rewrite Hz, N.bits_0 in Hbit. done.
  - apply N.le_antisymm; [|by apply testbit_true_le_log2].
    etransitivity; [apply N.log2_lxor|].
    destruct Ha as [->|Hlt]; [simpl|]; lia.
Qed.

Lemma log2_lxor_ne a b :
  a ≠ 0 → b ≠ 0 → N.log2 a ≠ N.log2 b →
  N.lxor a b ≠ 0 ∧
  (N.log2 (N.lxor a b) = N.log2 a ∨ N.log2 (N.lxor a b) = N.log2 b).
Proof.
  intros Ha Hb Hne.
  destruct (N.lt_total (N.log2 a) (N.log2 b)) as [Hlt|[Heq|Hgt]]; [|done|].
  - destruct (log2_lxor_lt a b Hb (or_intror Hlt)) as [? ?]. auto.
  - destruct (log2_lxor_lt b a Ha (or_intror Hgt)) as [? ?].
    rewrite N.lxor_comm. auto.
Qed.

(** A non-zero vector in the span of a list of pivots leads with the
    leading bit of one of them. *)
Lemma span_pivots_log2 B v :
  pivots B → span B v → v ≠ 0 → N.log2 v ∈ N.log2 <$> B.
Proof.
  revert v. induction B as [|b B IH]; intros v [Hnz Hnd] Hspan Hv.
  - exfalso. apply Hv. inversion Hspan as [|x w Hx]; [done|]. inversion Hx.
  - apply Forall_cons in Hnz as [Hb Hnz]. simpl in Hnd.
    apply NoDup_cons in Hnd as [Hfresh Hnd]. simpl.
    assert (HB : pivots B) by done.
    destruct (span_cons_inv _ _ _ Hspan) as [Hin|Hin].
    + apply list_elem_of_further. by apply IH.
    + destruct (decide (N.lxor v b = 0)) as [Hz|Hnz'].
      * apply N.lxor_eq in Hz as ->. apply list_elem_of_here.
      * pose proof (IH _ HB Hin Hnz') as Hlead.
        assert (Hne : N.log2 (N.lxor v b) ≠ N.log2 b)
          by (intros Heq; by rewrite Heq in Hlead).
        destruct (log2_lxor_ne _ _ Hnz' Hb Hne) as [_ Hlog].
        rewrite N.lxor_assoc, N.lxor_nilpotent, N.lxor_0_r in Hlog.
        destruct Hlog as [-> | ->];
          [by apply list_elem_of_further | apply list_elem_of_here].
Qed.

(** *** Elimination *)

Lemma triangular_snoc B w :
  triangular (B ++ [w]) ↔
  triangular B ∧ w ≠ 0 ∧ Forall (λ b, N.testbit w (N.log2 b) = false) B.
Proof.
  induction B as [|b B IH]; simpl.
  - split; [intros (? & _ & _) | intros (_ & ? & _)]; split_and!; done.
  - rewrite IH, Forall_app, !Forall_cons, Forall_nil.
    split;
      [intros (? & (? & ? & _) & ? & ? & ?)
      |intros ((? & ? & ?) & ? & ? & ?)];
      split_and!; done.
Qed.

Lemma triangular_pivots B : triangular B → pivots B.
Proof.
  induction B as [|b B IH]; simpl.
  - intros _. split; [constructor | simpl; constructor].
  - intros (Hb & Hclear & Htri). destruct (IH Htri) as [Hnz Hnd].
    split; [by constructor|]. simpl. constructor; [|done].
    intros Hin. apply list_elem_of_fmap in Hin as (b' & Hlog & Hb').
    rewrite Forall_forall in Hclear, Hnz.
    specialize (Hclear b' Hb'). rewrite Hlog in Hclear.
    rewrite testbit_log2 in Hclear by auto. done.
Qed.

Lemma reduce_cons b B v :
  reduce (b :: B) v =
  reduce B (if N.testbit v (N.log2 b) then N.lxor v b else v).
Proof. done. Qed.

Lemma reduce_keeps_clear B v p :
  Forall (λ b, N.testbit b p = false) B →
  N.testbit v p = false → N.testbit (reduce B v) p = false.
Proof.
  revert v. induction B as [|b B IH]; intros v Hclear Hv; [done|].
  apply Forall_cons in Hclear as [Hb Hclear].
  rewrite reduce_cons. apply IH; [done|].
  destruct (N.testbit v (N.log2 b)); [|done].
  by rewrite N.lxor_spec, Hv, Hb.
Qed.

(** After the reduction the leading bit of every pivot is clear. *)
Lemma reduce_clear B v :
  triangular B → Forall (λ b, N.testbit (reduce B v) (N.log2 b) = false) B.
Proof.
  revert v. induction B as [|b B IH]; intros v Htri; [constructor|].
  destruct Htri as (Hb & Hclear & Htri). rewrite reduce_cons.
  constructor; [|by apply IH].
  apply reduce_keeps_clear; [done|].
  destruct (N.testbit v (N.log2 b)) eqn:Hbit; [|done].
  by rewrite N.lxor_spec, Hbit, testbit_log2.
Qed.

(** The reduction changes a vector by an element of the span. *)
Lemma reduce_span B v : span B (N.lxor v (reduce B v)).
Proof.
  revert v. induction B as [|b B IH]; intros v.
  - simpl. rewrite N.lxor_nilpotent. apply span_zero.
  - rewrite reduce_cons.
    set (v1 := if N.testbit v (N.log2 b) then N.lxor v b else v).
    replace (N.lxor v (reduce B v1))
      with (N.lxor (N.lxor v v1) (N.lxor v1 (reduce B v1))).
    + apply span_lxor.
      * subst v1. destruct (N.testbit v (N.log2 b)).
        -- rewrite <- N.lxor_assoc, N.lxor_nilpotent, N.lxor_0_l.
           apply span_elem, list_elem_of_here.
        -- rewrite N.lxor_nilpotent. apply span_zero.
      * eapply span_mono; [|apply IH]. by apply list_subseteq_cons.
    + rewrite N.lxor_assoc, <- (N.lxor_assoc v1 v1), N.lxor_nilpotent,
        N.lxor_0_l. done.
Qed.

Lemma add_vector_triangular B v : triangular B → triangular (add_vector B v).
Proof.
  intros Htri. unfold add_vector.
  destruct (N.eqb_spec (reduce B v) 0) as [Hz|Hnz]; [done|].
  apply triangular_snoc. split_and!; [done..|]. by apply reduce_clear.
Qed.

Lemma add_vector_subseteq B v : B ⊆ add_vector B v.
Proof.
  unfold add_vector. destruct (_ =? _); [done|]. by apply list_subseteq_app_l.
Qed.

Lemma add_vector_span_new B v : span (add_vector B v) v.
Proof.
  assert (Hsum :
    span (add_vector B v) (N.lxor (N.lxor v (reduce B v)) (reduce B v))).
  { apply span_lxor.
    - eapply span_mono; [apply add_vector_subseteq | apply reduce_span].
    - unfold add_vector. destruct (N.eqb_spec (reduce B v) 0) as [->|Hnz].
      + apply span_zero.
      + apply span_elem. apply elem_of_app. right. apply list_elem_of_here. }
  by rewrite N.lxor_assoc, N.lxor_nilpotent, N.lxor_0_r in Hsum.
Qed.

Lemma add_vector_span_old B v x : x ∈ add_vector B v → span (B ++ [v]) x.
Proof.
  unfold add_vector. destruct (_ =? _).
  - intros Hx. apply span_elem, elem_of_app. by left.
  - intros [Hx|Hx%list_elem_of_singleton]%elem_of_app.
    + apply span_elem, elem_of_app. by left.
    + subst x.
      replace (reduce B v) with (N.lxor (N.lxor v (reduce B v)) v).
      * apply span_lxor.
        -- eapply span_mono; [|apply reduce_span]. by apply list_subseteq_app_l.
        -- apply span_elem, elem_of_app. right. apply list_elem_of_here.
      * rewrite (N.lxor_comm v (reduce B v)), N.lxor_assoc, N.lxor_nilpotent,
          N.lxor_0_r. done.
Qed.

Lemma foldl_add_vector_triangular vs B :
  triangular B → triangular (foldl add_vector B vs).
Proof.
  revert B. induction vs as [|v vs IH]; intros B Htri; [done|].
  simpl. by apply IH, add_vector_triangular.
Qed.

(** The elimination spans what it was given ... *)
Lemma foldl_add_vector_spans vs B x :
  x ∈ B ++ vs → span (foldl add_vector B vs) x.
Proof.
  revert B x. induction vs as [|v vs IH]; intros B x Hx; simpl.
  - rewrite app_nil_r in Hx. by apply span_elem.
  - apply elem_of_app in Hx as [Hx|Hx].
    + apply IH, elem_of_app. left. by apply add_vector_subseteq.
    + apply elem_of_cons in Hx as [->|Hx].
      * eapply span_trans; [|apply add_vector_span_new].
        intros y Hy. apply IH, elem_of_app. by left.
      * apply IH, elem_of_app. by right.
Qed.

(** ... and nothing more. *)
Lemma foldl_add_vector_within vs B x :
  x ∈ foldl add_vector B vs → span (B ++ vs) x.
Proof.
  revert B. induction vs as [|v vs IH]; intros B Hx; simpl in Hx.
  - rewrite app_nil_r. by apply span_elem.
  - apply IH in Hx. eapply span_trans; [|exact Hx].
    intros y [Hy|Hy]%elem_of_app.
    + eapply span_mono; [|by apply add_vector_span_old].
      intros z [Hz|Hz%list_elem_of_singleton]%elem_of_app; apply elem_of_app;
        [by left | right; subst z; apply list_elem_of_here].
    + apply span_elem, elem_of_app. right. by apply list_elem_of_further.
Qed.

Lemma echelon_triangular vs : triangular (echelon vs).
Proof. by apply foldl_add_vector_triangular. Qed.

Lemma echelon_spans vs x : span vs x → span (echelon vs) x.
Proof. apply span_trans. intros y Hy. by apply foldl_add_vector_spans. Qed.

Lemma echelon_within vs x : span (echelon vs) x → span vs x.
Proof.
  apply span_trans. intros y Hy. by apply (foldl_add_vector_within vs []).
Qed.

(** *** The rank *)

Lemma rank_nil : rank [] = 0%Z.
Proof. done. Qed.

Lemma rank_nonneg vs : (0 ≤ rank vs)%Z.
Proof. unfold rank, Py.len. lia. Qed.

(** The rank only depends on the span: a list inside the span of another
    has at most its rank. *)
Lemma rank_le_span l l' : (∀ x, x ∈ l → span l' x) → (rank l ≤ rank l')%Z.
Proof.
  intros Hsub. unfold rank, Py.len.
  destruct (triangular_pivots _ (echelon_triangular l)) as [Hnz Hnd].
  pose proof (triangular_pivots _ (echelon_triangular l')) as Hpiv'.
  assert (Hincl : N.log2 <$> echelon l ⊆ N.log2 <$> echelon l').
  { intros p (b & -> & Hb)%list_elem_of_fmap.
    apply span_pivots_log2; [done| |by eapply Forall_forall in Hnz].
    apply echelon_spans. eapply span_trans; [exact Hsub|].
    apply echelon_within. by apply span_elem. }
  apply NoDup_submseteq in Hincl; [|done].
  apply submseteq_length in Hincl. rewrite !length_fmap in Hincl. lia.
Qed.

Lemma rank_subseteq l l' : l ⊆ l' → (rank l ≤ rank l')%Z.
Proof. intros Hsub. apply rank_le_span. intros x Hx. apply span_elem; auto. Qed.

Lemma rank_same_elements l l' : l ⊆ l' → l' ⊆ l → rank l = rank l'.
Proof. intros H1 H2. apply Z.le_antisymm; by apply rank_subseteq. Qed.

Lemma echelon_snoc l v : echelon (l ++ [v]) = add_vector (echelon l) v.
Proof. unfold echelon. by rewrite foldl_app. Qed.

Lemma reduce_echelon_zero l v : reduce (echelon l) v = 0 ↔ span l v.
Proof.
  split.
  - intros Hz. apply echelon_within.
    pose proof (reduce_span (echelon l) v) as Hred.
    by rewrite Hz, N.lxor_0_r in Hred.
  - intros Hv. destruct (decide (reduce (echelon l) v = 0)) as [|Hnz]; [done|].
    exfalso.
    assert (Hred : span (echelon l) (reduce (echelon l) v)).
    { pose proof (span_lxor _ _ _ (echelon_spans _ _ Hv)
                    (reduce_span (echelon l) v)) as Hsum.
      by rewrite <- N.lxor_assoc, N.lxor_nilpotent, N.lxor_0_l in Hsum. }
    pose proof (echelon_triangular l) as Htri.
    apply span_pivots_log2 in Hred; [|by apply triangular_pivots|done].
    apply list_elem_of_fmap in Hred as (b & Hlog & Hb).
    pose proof (reduce_clear (echelon l) v Htri) as Hclear.
    rewrite Forall_forall in Hclear. specialize (Hclear b Hb).
    rewrite <- Hlog, testbit_log2 in Hclear by done. done.
Qed.

Lemma span_decidable l v : span l v ∨ ¬ span l v.
Proof.
  rewrite <- reduce_echelon_zero.
  destruct (decide (reduce (echelon l) v = 0)); auto.
Qed.

(** A column in the span does not change the rank; a column outside raises
    it by one. *)
Lemma rank_snoc_in l v : span l v → rank (l ++ [v]) = rank l.
Proof.
  intros Hv%reduce_echelon_zero. unfold rank.
  rewrite echelon_snoc. unfold add_vector. by rewrite Hv.
Qed.

Lemma rank_snoc_out l v : ¬ span l v → rank (l ++ [v]) = (rank l + 1)%Z.
Proof.
  intros Hv. unfold rank. rewrite echelon_snoc. unfold add_vector.
  destruct (N.eqb_spec (reduce (echelon l) v) 0) as [Hz|Hnz].
  - by apply reduce_echelon_zero in Hz.
  - unfold Py.len. rewrite length_app. simpl. lia.
Qed.

Lemma rank_snoc_le l v : (rank l ≤ rank (l ++ [v]) ≤ rank l + 1)%Z.
Proof.
  destruct (span_decidable l v) as [Hv|Hv].
  - rewrite rank_snoc_in by done. lia.
  - rewrite rank_snoc_out by done. lia.
Qed.

Lemma rank_app_le l l' : (rank (l ++ l') ≤ rank l + Py.len l')%Z.
Proof.
  induction l' as [|v l' IH] using rev_ind.
  - rewrite app_nil_r. unfold Py.len. simpl. lia.
  - rewrite app_assoc. pose proof (rank_snoc_le (l ++ l') v).
    unfold Py.len in *. rewrite length_app. simpl. lia.
Qed.

End GF2Facts.

(** ** The matroid of a matrix over GF(2) *)

Module BinaryFacts.
Import SageModel.

(** *** Subsets in groundset order *)

Lemma sublists_subseteq {X} (l F : list X) : F ∈ sublists l → F ⊆ l.
Proof.
  revert F. induction l as [|x l IH]; intros F; simpl.
  - intros ->%list_elem_of_singleton. done.
  - intros [HF|(F' & -> & HF')%list_elem_of_fmap]%elem_of_app.
    + by apply list_subseteq_cons, IH.
    + intros y [->|Hy]%elem_of_cons; [apply list_elem_of_here|].
      apply list_elem_of_further. by apply (IH F').
Qed.

Lemma filter_in_sublists {X} (P : X → Prop) `{!∀ x, Decision (P x)}
    (l : list X) :
  filter P l ∈ sublists l.
Proof.
  induction l as [|x l IH]; simpl; [apply list_elem_of_here|].
  rewrite filter_cons. apply elem_of_app. destruct (decide (P x)).
  - right. apply list_elem_of_fmap. eauto.
  - by left.
Qed.

Lemma filter_ext_in {X} (P Q : X → Prop)
    `{!∀ x, Decision (P x), !∀ x, Decision (Q x)} (l : list X) :
  (∀ x, x ∈ l → P x ↔ Q x) → filter P l = filter Q l.
Proof.
  induction l as [|x l IH]; intros Hext; [done|].
  rewrite !filter_cons.
  rewrite IH by (intros y Hy; by apply Hext, list_elem_of_further).
  pose proof (Hext x (list_elem_of_here _ _)) as Hx.
  destruct (decide (P x)), (decide (Q x)); tauto.
Qed.

Lemma sublists_filter `{!EqDecision X} (l F : list X) :
  NoDup l → F ∈ sublists l → F = filter (λ x, x ∈ F) l.
Proof.
  revert F. induction l as [|x l IH]; intros F Hnd; simpl.
  - intros ->%list_elem_of_singleton. done.
  - apply NoDup_cons in Hnd as [Hx Hnd].
    intros [HF|(F' & -> & HF')%list_elem_of_fmap]%elem_of_app.
    + rewrite filter_cons_False.
      * by apply IH.
      * intros HxF. apply Hx. by apply (sublists_subseteq _ _ HF).
    + rewrite filter_cons_True by apply list_elem_of_here. f_equal.
      rewrite (IH F' Hnd HF') at 1. apply filter_ext_in.
      intros y Hy. rewrite elem_of_cons.
      split; [auto|]. intros [->|?]; done.
Qed.

Lemma NoDup_sublists {X} (l : list X) : NoDup l → NoDup (sublists l).
Proof.
  induction l as [|x l IH]; intros Hnd; simpl; [apply NoDup_singleton|].
  apply NoDup_cons in Hnd as [Hx Hnd]. apply NoDup_app. split_and!.
  - by apply IH.
  - intros F HF (F' & -> & _)%list_elem_of_fmap.
    apply sublists_subseteq in HF. apply Hx, HF, list_elem_of_here.
  - apply NoDup_fmap_2; [|by apply IH]. intros ?? [=]. done.
Qed.

Lemma filter_only {X} (P : X → Prop) `{!∀ x, Decision (P x)}
    (l : list X) (x : X) :
  NoDup l → x ∈ l → P x → (∀ y, y ∈ l → P y → y = x) → filter P l = [x].
Proof.
  induction l as [|y l IH]; intros Hnd Hx HP Huniq; [by apply elem_of_nil in Hx|].
  apply NoDup_cons in Hnd as [Hy Hnd]. rewrite filter_cons.
  apply elem_of_cons in Hx as [<-|Hx].
  - rewrite decide_True by done. f_equal.
    destruct (filter P l) as [|z zs] eqn:Hf; [done|]. exfalso.
    assert (Hz : z ∈ filter P l) by (rewrite Hf; apply list_elem_of_here).
    apply list_elem_of_filter in Hz as [HPz Hz].
    apply Hy. rewrite <- (Huniq z); [done| by apply list_elem_of_further |done].
  - destruct (decide (P y)) as [HPy|_].
    + exfalso. apply Hy. rewrite (Huniq y); [done|apply list_elem_of_here|done].
    + apply IH; [done..|]. intros z Hz. apply Huniq. by apply list_elem_of_further.
Qed.

(** The flats of rank [k] are the closed subsets of rank [k], in groundset
    order. *)
Lemma elem_of_flats (m : matroid) (k : Z) (F : list nat) :
  F ∈ flats m k ↔ F ∈ sublists (E m) ∧ is_flat m F ∧ rk m F = k.
Proof. unfold flats. rewrite list_elem_of_filter. tauto. Qed.

Section Binary.
Variable A : Matrix.

Lemma rk_nil : rk (binary A) [] = 0.
Proof. done. Qed.

Lemma rk_subseteq X Y : X ⊆ Y → rk (binary A) X ≤ rk (binary A) Y.
Proof.
  intros Hsub. apply GF2Facts.rank_subseteq.
  intros v (x & -> & Hx)%list_elem_of_fmap. apply list_elem_of_fmap.
  exists x. auto.
Qed.

Lemma rk_same_elements X Y : X ⊆ Y → Y ⊆ X → rk (binary A) X = rk (binary A) Y.
Proof. intros H1 H2. apply Z.le_antisymm; by apply rk_subseteq. Qed.

Lemma rk_app_le X Y : rk (binary A) (X ++ Y) ≤ rk (binary A) X + Py.len Y.
Proof.
  simpl. rewrite fmap_app.
  etransitivity; [apply GF2Facts.rank_app_le|].
  unfold Py.len. rewrite length_fmap. lia.
Qed.

Lemma rk_bounds X : 0 ≤ rk (binary A) X ≤ Py.len X.
Proof.
  split; [apply GF2Facts.rank_nonneg|].
  pose proof (rk_app_le [] X) as Hle. rewrite rk_nil in Hle. done.
Qed.

Lemma rk_snoc_le X e : rk (binary A) X ≤ rk (binary A) (X ++ [e]) ≤ rk (binary A) X + 1.
Proof. simpl. rewrite fmap_app. apply GF2Facts.rank_snoc_le. Qed.

Lemma rk_snoc_in X e : in_span A X e → rk (binary A) (X ++ [e]) = rk (binary A) X.
Proof. intros He. simpl. rewrite fmap_app. by apply GF2Facts.rank_snoc_in. Qed.

Lemma rk_snoc_out X e : ¬ in_span A X e → rk (binary A) (X ++ [e]) = rk (binary A) X + 1.
Proof. intros He. simpl. rewrite fmap_app. by apply GF2Facts.rank_snoc_out. Qed.

Lemma in_span_mono X Y e : X ⊆ Y → in_span A X e → in_span A Y e.
Proof.
  intros Hsub. unfold in_span. apply GF2Facts.span_mono.
  intros v (x & -> & Hx)%list_elem_of_fmap. apply list_elem_of_fmap.
  exists x. auto.
Qed.

Lemma NoDup_E : NoDup (E (binary A)).
Proof. apply NoDup_seq. Qed.

(** The rank of the dual is between 0 and the size of the set. *)
Lemma dual_rk_bounds X : 0 ≤ rk (dual (binary A)) X ≤ Py.len X.
Proof.
  unfold dual, full_rank. cbn [rk E].
  set (E0 := E (binary A)). set (D := list_difference E0 X).
  assert (rk (binary A) D ≤ rk (binary A) E0) by (apply rk_subseteq; intros x Hx%list_elem_of_difference; tauto).
  assert (rk (binary A) E0 ≤ rk (binary A) (D ++ X)).
  { apply rk_subseteq. intros x Hx. apply elem_of_app.
    destruct (decide (x ∈ X)); [by right|].
    left. by apply list_elem_of_difference. }
  pose proof (rk_app_le D X). lia.
Qed.

(** *** Coloops and the flats of rank 0 of the dual *)

Lemma rk_put_back e :
  e ∈ E (binary A) →
  full_rank (binary A) =
  rk (binary A) (list_difference (E (binary A)) [e] ++ [e]).
Proof.
  intros He. apply rk_same_elements; intros x Hx.
  - apply elem_of_app. destruct (decide (x = e)) as [->|Hne].
    + right. apply list_elem_of_here.
    + left. apply list_elem_of_difference. split; [done|].
      by intros ->%list_elem_of_singleton.
  - apply elem_of_app in Hx as [Hx%list_elem_of_difference| ->%list_elem_of_singleton];
      tauto.
Qed.

(** An element is a coloop exactly when its column is not a combination of
    the other columns. *)
Lemma coloop_iff e :
  e ∈ E (binary A) →
  rk (dual (binary A)) [e] = 0 ↔
  ¬ in_span A (list_difference (E (binary A)) [e]) e.
Proof.
  intros He. unfold dual. cbn [rk E]. rewrite (rk_put_back e He).
  change (Py.len [e]) with 1.
  destruct (GF2Facts.span_decidable
              (GF2.column A <$> list_difference (E (binary A)) [e])
              (GF2.column A e)) as [Hin|Hout].
  - rewrite rk_snoc_in by done. split; [lia | tauto].
  - rewrite rk_snoc_out by done. split; [tauto | lia].
Qed.

Lemma elem_of_coloops e :
  e ∈ coloops (binary A) ↔
  e ∈ E (binary A) ∧ ¬ in_span A (list_difference (E (binary A)) [e]) e.
Proof.
  unfold coloops, loops. rewrite list_elem_of_filter. cbn [E dual].
  split.
  - intros [Hrk He]. split; [done|]. by apply coloop_iff.
  - intros [He Hout]. split; [|done]. by apply coloop_iff.
Qed.

(** Coloops are independent of everything else: adding them raises the rank
    by their number. *)
Lemma rk_app_coloops X Y :
  NoDup Y → Y ⊆ coloops (binary A) → X ⊆ E (binary A) →
  (∀ y, y ∈ Y → y ∉ X) →
  rk (binary A) (X ++ Y) = rk (binary A) X + Py.len Y.
Proof.
  induction Y as [|y Y IH] using rev_ind; intros Hnd Hco HX Hdisj.
  - rewrite app_nil_r. unfold Py.len. simpl. lia.
  - apply NoDup_app in Hnd as (Hnd & Hfresh & _).
    assert (Hy : y ∈ coloops (binary A))
      by (apply Hco, elem_of_app; right; apply list_elem_of_here).
    apply elem_of_coloops in Hy as [HyE Hout].
    rewrite app_assoc, rk_snoc_out.
    + rewrite IH; [|done|..].
      * unfold Py.len. rewrite length_app. simpl. lia.
      * intros z Hz. apply Hco, elem_of_app. by left.
      * done.
      * intros z Hz. apply Hdisj, elem_of_app. by left.
    + intros Hin. apply Hout. eapply in_span_mono; [|exact Hin].
      intros z Hz. apply list_elem_of_difference.
      rewrite list_elem_of_singleton.
      apply elem_of_app in Hz as [Hz|Hz].
      * split; [by apply HX|]. intros ->.
        apply (Hdisj y); [|done]. apply elem_of_app. right.
        apply list_elem_of_here.
      * split.
        -- assert (z ∈ coloops (binary A)) as Hzc
             by (apply Hco, elem_of_app; by left).
           by apply elem_of_coloops in Hzc as [? _].
        -- intros ->. apply (Hfresh y Hz), list_elem_of_here.
Qed.

Lemma dual_rk_coloops : rk (dual (binary A)) (coloops (binary A)) = 0.
Proof.
  set (C := coloops (binary A)).
  assert (Hsum :
    rk (binary A) (list_difference (E (binary A)) C ++ C) =
    rk (binary A) (list_difference (E (binary A)) C) + Py.len C).
  { apply rk_app_coloops.
    - apply NoDup_filter, NoDup_E.
    - done.
    - intros x Hx%list_elem_of_difference. tauto.
    - intros y Hy Hy'%list_elem_of_difference. tauto. }
  assert (Hall :
    full_rank (binary A) =
    rk (binary A) (list_difference (E (binary A)) C ++ C)).
  { apply rk_same_elements; intros x Hx.
    - apply elem_of_app. destruct (decide (x ∈ C)); [by right|].
      left. by apply list_elem_of_difference.
    - apply elem_of_app in Hx as [Hx%list_elem_of_difference|Hx]; [tauto|].
      by apply elem_of_coloops in Hx as [? _]. }
  unfold dual. cbn [rk E]. fold C. lia.
Qed.

Lemma not_coloop_full_rank e :
  e ∈ E (binary A) → e ∉ coloops (binary A) →
  rk (binary A) (list_difference (E (binary A)) [e]) = full_rank (binary A).
Proof.
  intros He Hnot. rewrite (rk_put_back e He).
  symmetry. apply rk_snoc_in.
  destruct (GF2Facts.span_decidable
              (GF2.column A <$> list_difference (E (binary A)) [e])
              (GF2.column A e)) as [Hin|Hout]; [done|].
  exfalso. apply Hnot, elem_of_coloops. done.
Qed.

Lemma is_flat_coloops : is_flat (dual (binary A)) (coloops (binary A)).
Proof.
  pose proof dual_rk_coloops as Hzero.
  set (C := coloops (binary A)) in *.
  apply Forall_forall. intros e He. cbn [E dual] in He.
  destruct (decide (e ∈ C)) as [|Hnot]; [by left|]. right.
  rewrite Hzero. unfold dual. cbn [rk E].
  rewrite <- (not_coloop_full_rank e He Hnot).
  set (D := list_difference (E (binary A)) (C ++ [e])).
  assert (Hle :
    rk (binary A) (list_difference (E (binary A)) [e]) ≤
    rk (binary A) (D ++ C)).
  { apply rk_subseteq. intros x [Hx Hne]%list_elem_of_difference.
    apply elem_of_app. destruct (decide (x ∈ C)); [by right|].
    left. apply list_elem_of_difference. split; [done|].
    rewrite elem_of_app. tauto. }
  pose proof (rk_app_le D C).
  unfold Py.len in *. rewrite length_app. cbn [length]. lia.
Qed.

Lemma rank0_subseteq_coloops F :
  F ⊆ E (binary A) → rk (dual (binary A)) F = 0 → F ⊆ coloops (binary A).
Proof.
  intros HF Hzero e He.
  destruct (decide (e ∈ coloops (binary A))) as [|Hnot]; [done|]. exfalso.
  pose proof (not_coloop_full_rank e (HF e He) Hnot) as Hfull.
  apply list_elem_of_split in He as (F1 & F2 & ->).
  assert (Hle :
    rk (binary A) (list_difference (E (binary A)) [e]) ≤
    rk (binary A)
       (list_difference (E (binary A)) (F1 ++ e :: F2) ++ (F1 ++ F2))).
  { apply rk_subseteq. intros x [Hx Hne]%list_elem_of_difference.
    rewrite list_elem_of_singleton in Hne.
    rewrite elem_of_app, list_elem_of_difference, !elem_of_app, elem_of_cons.
    destruct (decide (x ∈ F1)); [tauto|].
    destruct (decide (x ∈ F2)); [tauto|]. left. tauto. }
  pose proof (rk_app_le (list_difference (E (binary A)) (F1 ++ e :: F2))
                (F1 ++ F2)) as Happ.
  unfold dual in Hzero. cbn [rk E] in Hzero.
  unfold Py.len in *. rewrite !length_app in *. cbn [length] in *. lia.
Qed.

Lemma coloops_subseteq_flat F :
  is_flat (dual (binary A)) F → rk (dual (binary A)) F = 0 →
  coloops (binary A) ⊆ F.
Proof.
  intros Hflat Hzero e [He Hout]%elem_of_coloops.
  unfold is_flat in Hflat. rewrite Forall_forall in Hflat.
  destruct (decide (e ∈ F)) as [|HeF]; [done|].
  destruct (Hflat e He) as [|Hlt]; [done|]. exfalso.
  set (D := list_difference (E (binary A)) (F ++ [e])).
  assert (Hsame :
    rk (binary A) (list_difference (E (binary A)) F) =
    rk (binary A) (D ++ [e])).
  { apply rk_same_elements; intros x; subst D;
      rewrite elem_of_app, !list_elem_of_difference, elem_of_app,
        list_elem_of_singleton.
    - destruct (decide (x = e)); tauto.
    - intros [[? ?]| ->]; tauto. }
  assert (Hnew : rk (binary A) (D ++ [e]) = rk (binary A) D + 1).
  { apply rk_snoc_out. intros Hin. apply Hout.
    eapply in_span_mono; [|exact Hin].
    intros x; subst D.
    rewrite !list_elem_of_difference, elem_of_app. tauto. }
  unfold dual in Hzero, Hlt. cbn [rk E] in Hzero, Hlt. fold D in Hlt.
  unfold Py.len in *. rewrite length_app in Hlt. cbn [length] in Hlt. lia.
Qed.

(** The dual has exactly one flat of rank 0: the set of coloops. *)
Lemma dual_flats_0 : flats (dual (binary A)) 0 = [coloops (binary A)].
Proof.
  unfold flats. cbn [E dual]. apply filter_only.
  - apply NoDup_sublists, NoDup_E.
  - apply filter_in_sublists.
  - split; [apply is_flat_coloops | apply dual_rk_coloops].
  - intros F HF [Hflat Hzero].
    rewrite (sublists_filter _ F NoDup_E HF).
    unfold coloops, loops. cbn [E dual]. apply filter_ext_in.
    intros x Hx. split.
    + intros HxF.
      assert (Hc : x ∈ coloops (binary A)).
      { eapply rank0_subseteq_coloops; [|done..].
        by apply sublists_subseteq. }
      unfold coloops, loops in Hc. by apply list_elem_of_filter in Hc as [? _].
    + intros Hrk. apply (coloops_subseteq_flat F Hflat Hzero).
      unfold coloops, loops. apply list_elem_of_filter. done.
Qed.

End Binary.
End BinaryFacts.

(** ** The dual and the first round of the loop *)

Module DualFacts.
Import SageModel.

Lemma list_difference_self (l : list nat) : list_difference l l = [].
Proof.
  apply elem_of_nil_inv. intros x [? ?]%list_elem_of_difference. done.
Qed.

Lemma list_difference_nil (l : list nat) : list_difference l [] = l.
Proof.
  induction l as [|x l IH]; [done|]. simpl. by rewrite IH.
Qed.

(** C5: the rank function of the dual of a binary matroid on groundset [E]
    is [|S| - rank(E) + rank(E \ S)], and the rank of the dual, the value
    [my_dual_rank] that bounds the co-rank loop, is [|E| - rank(M)]. *)
Theorem dual_rank_formula (A : Matrix) (S : list nat) :
  let m := Sage.Matroid (M := matroid) A in
  rk (Sage.dual m) S =
    Py.len S - Sage.rank m + rk m (list_difference (Sage.groundset m) S) ∧
  Sage.rank (Sage.dual m) = Py.len (Sage.groundset m) - Sage.rank m.
Proof.
  intros m. split.
  - change (rk (dual (binary A)) S =
            Py.len S - full_rank (binary A)
            + rk (binary A) (list_difference (E (binary A)) S)).
    unfold dual. cbn [rk E]. lia.
  - change (full_rank (dual (binary A)) =
            Py.len (E (binary A)) - full_rank (binary A)).
    unfold full_rank at 1. unfold dual. cbn [rk E].
    rewrite list_difference_self, BinaryFacts.rk_nil. lia.
Qed.

(** The dual rank is never negative, so the loop always visits co-rank 0. *)
Lemma dual_rank_nonneg (A : Matrix) : 0 ≤ full_rank (dual (binary A)).
Proof. apply BinaryFacts.dual_rk_bounds. Qed.

Lemma delete_nil (A : Matrix) : delete (binary A) [] = binary A.
Proof. unfold delete. by rewrite list_difference_nil. Qed.

(** C2 (as amended): co-rank 0 is always visited and yields exactly one flat
    of the dual, the set of coloops of the matroid; this is the empty flat
    exactly when the matroid has no coloop.  Deleting the empty flat gives
    back the whole matroid, and a candidate with as many elements as the
    whole matroid is never the cause of a [False]: whenever the evaluator
    returns [False], some flat of the dual has a connected deletion of
    non-positive mobility with strictly fewer elements. *)
Theorem co_rank_zero (g : Graph) (screw_system : Z) :
  let m := Sage.Matroid (M := matroid) (incidence_matrix g) in
  0 ∈ Py.range 0 (Sage.rank (Sage.dual m) + 1) ∧
  Sage.flats (Sage.dual m) 0 = [coloops m] ∧
  (Sage.flats (Sage.dual m) 0 = [[]] ↔ coloops m = []) ∧
  Sage.delete m [] = m ∧
  check_co_flat m (Sage.groundset m) screw_system [] = None ∧
  (∀ F, Py.len (Sage.groundset (Sage.delete m F)) = Py.len (Sage.groundset m) →
        check_co_flat m (Sage.groundset m) screw_system F = None) ∧
  (no_rigid_subchains g screw_system = false →
   ∃ co_rank F,
     0 ≤ co_rank ≤ Sage.rank (Sage.dual m) ∧
     F ∈ Sage.flats (Sage.dual m) co_rank ∧
     Sage.is_connected (Sage.delete m F) = true ∧
     mobility (Sage.rank (Sage.delete m F))
              (Py.len (Sage.groundset (Sage.delete m F))) screw_system ≤ 0 ∧
     Py.len (Sage.groundset (Sage.delete m F)) < Py.len (Sage.groundset m)).
Proof.
  intros m.
  assert (Hflats : Sage.flats (Sage.dual m) 0 = [coloops m])
    by apply BinaryFacts.dual_flats_0.
  assert (Hnil : Sage.delete m [] = m) by apply delete_nil.
  split_and!.
  - apply elem_of_range. pose proof (dual_rank_nonneg (incidence_matrix g)).
    cbn in *. lia.
  - done.
  - rewrite Hflats. split; [by intros [= ->] | by intros ->].
  - done.
  - apply check_co_flat_not_smaller. rewrite Hnil. lia.
  - intros F HF. apply check_co_flat_not_smaller. lia.
  - intros Hfalse. by apply no_rigid_subchains_false in Hfalse.
Qed.

(** At the four-bar linkage, which has no coloop, co-rank 0 yields the empty
    flat and its deletion is the whole matroid. *)
Lemma co_rank_zero_four_bar :
  Sage.flats (Sage.dual (binary (incidence_matrix four_bar))) 0 = [[]] ∧
  Sage.delete (binary (incidence_matrix four_bar)) [] =
    binary (incidence_matrix four_bar).
Proof.
  destruct (co_rank_zero four_bar 3) as (_ & _ & Hempty & Hnil & _).
  split; [|exact Hnil]. apply Hempty. vm_compute. reflexivity.
Defined.

(** The triangle with a pendant edge: the pendant edge is a coloop, so the
    flat of co-rank 0 is not empty; its deletion is the triangle, a proper
    subchain of mobility 0, on which the evaluator returns [False]. *)
Lemma co_rank_zero_flat_not_empty :
  Sage.flats (Sage.dual (binary (incidence_matrix tri_pendant))) 0
    = [[3%nat]] ∧
  Sage.flats (Sage.dual (binary (incidence_matrix tri_pendant))) 0 ≠ [[]] ∧
  Sage.groundset (Sage.delete (binary (incidence_matrix tri_pendant)) [3%nat])
    = [0; 1; 2]%nat ∧
  Sage.groundset (Sage.delete (binary (incidence_matrix tri_pendant)) [3%nat])
    ≠ Sage.groundset (binary (incidence_matrix tri_pendant)) ∧
  check_co_flat (binary (incidence_matrix tri_pendant))
    (Sage.groundset (binary (incidence_matrix tri_pendant))) 3 [3%nat]
    = Some false ∧
  no_rigid_subchains (M := matroid) tri_pendant 3 = false.
Proof. vm_compute. split_and!; done. Qed.

End DualFacts.

(** ** Sub-matroids with two elements *)

Module PairFacts.
Import SageModel.

Lemma circuit_singleton (m : matroid) (a : nat) :
  rk m [] = 0 → circuit m [a] = [a].
Proof.
  intros H0. unfold circuit. cbn [foldl list_difference].
  destruct (decide_rel elem_of a [a]) as [_|Hn];
    [|exfalso; apply Hn, list_elem_of_here].
  rewrite H0. by rewrite decide_True.
Qed.
Lemma merge_circuit_pair (a b : nat) :
  a ≠ b → merge_circuit [a] [[a]; [b]] = [[b]; [a]].
Proof.
  intros Hne. unfold merge_circuit, list_union. cbn.
  destruct (decide_rel elem_of a [a]) as [_|Hn];
    [|exfalso; apply Hn, list_elem_of_here].
  cbn. rewrite decide_True by done. cbn.
  destruct (decide_rel elem_of a [a]) as [_|Hn];
    [|exfalso; apply Hn, list_elem_of_here].
  cbn.
  destruct (decide_rel elem_of a [b]) as [Hin|_];
    [by apply list_elem_of_singleton in Hin|].
  cbn. by rewrite decide_False by (intros Hn; by apply Hn).
Qed.
Lemma basis_pair_rank0 (m : matroid) (a b : nat) :
  E m = [a; b] → rk m [] = 0 → rk m [a] = 0 → rk m [b] = 0 → basis m = [].
Proof.
  intros HE H0 Ha Hb. unfold basis. rewrite HE. cbn [foldl app].
  rewrite H0, Ha. destruct (decide (0 < 0)) as [?|_]; [lia|]. cbn [app].
  rewrite H0, Hb. by destruct (decide (0 < 0)) as [?|_]; [lia|].
Qed.
Lemma pair_rank0_not_connected (m : matroid) (a b : nat) :
  E m = [a; b] → a ≠ b →
  rk m [] = 0 → rk m [a] = 0 → rk m [b] = 0 →
  is_connected m = false.
Proof.
  intros HE Hne H0 Ha Hb.
  unfold is_connected, components.
  rewrite (basis_pair_rank0 m a b) by done. rewrite HE.
  cbn [list_difference foldl fmap list_fmap app].
  destruct (decide_rel elem_of a []) as [Hin|_]; [by apply elem_of_nil in Hin|].
  destruct (decide_rel elem_of b []) as [Hin|_]; [by apply elem_of_nil in Hin|].
  cbn [foldl].
  rewrite !circuit_singleton by done.
  rewrite merge_circuit_pair by done. by rewrite merge_circuit_pair.
Qed.
Lemma basis_pair_rank2 (m : matroid) (a b : nat) :
  E m = [a; b] → rk m [] = 0 → rk m [a] = 1 → rk m [a; b] = 2 →
  basis m = [a; b].
Proof.
  intros HE H0 Ha Hab. unfold basis. rewrite HE. cbn [foldl app].
  rewrite H0, Ha. destruct (decide (0 < 1)) as [_|?]; [|lia]. cbn [app].
  rewrite Ha, Hab. by destruct (decide (1 < 2)) as [_|?]; [|lia].
Qed.
Lemma pair_rank2_not_connected (m : matroid) (a b : nat) :
  E m = [a; b] → rk m [] = 0 → rk m [a] = 1 → rk m [a; b] = 2 →
  is_connected m = false.
Proof.
  intros HE H0 Ha Hab.
  unfold is_connected, components.
  rewrite (basis_pair_rank2 m a b) by done. rewrite HE.
  replace (list_difference [a; b] [a; b]) with (@nil nat); [done|].
  symmetry. apply elem_of_nil_inv. intros x [? ?]%list_elem_of_difference. done.
Qed.

(** A connected sub-matroid with two elements of the matroid of a matrix has
    rank 1: with rank 0 its elements are two loops, with rank 2 two coloops,
    and both are two components. *)
Lemma connected_pair_rank (A : Matrix) (F : list nat) :
  Py.len (E (delete (binary A) F)) = 2 →
  is_connected (delete (binary A) F) = true →
  full_rank (delete (binary A) F) = 1.
Proof.
  intros Hlen Hconn.
  assert (Hnd : NoDup (E (delete (binary A) F)))
    by apply NoDup_list_difference, BinaryFacts.NoDup_E.
  destruct (E (delete (binary A) F)) as [|a [|b [|c l]]] eqn:HE;
    try (by unfold Py.len in Hlen; simpl in Hlen; lia).
  apply NoDup_cons in Hnd as [Hab _]. rewrite list_elem_of_singleton in Hab.
  unfold full_rank. rewrite HE. cbn [rk delete].
  pose proof (BinaryFacts.rk_bounds A [a; b]) as Hab_bounds.
  pose proof (BinaryFacts.rk_bounds A [a]) as Ha_bounds.
  pose proof (BinaryFacts.rk_bounds A [b]) as Hb_bounds.
  pose proof (BinaryFacts.rk_snoc_le A [a] b) as Hsnoc. cbn [app] in Hsnoc.
  assert (Ha_le : rk (binary A) [a] ≤ rk (binary A) [a; b]).
  { apply BinaryFacts.rk_subseteq. intros x ->%list_elem_of_singleton.
    apply list_elem_of_here. }
  assert (Hb_le : rk (binary A) [b] ≤ rk (binary A) [a; b]).
  { apply BinaryFacts.rk_subseteq. intros x ->%list_elem_of_singleton.
    apply list_elem_of_further, list_elem_of_here. }
  unfold Py.len in *. cbn [length] in *.
  destruct (decide (rk (binary A) [a; b] = 0)) as [Hzero|Hnz].
  - rewrite (pair_rank0_not_connected _ a b) in Hconn;
      [done|done|done|done|cbn [rk delete]; lia..].
  - destruct (decide (rk (binary A) [a; b] = 2)) as [Htwo|Hn2]; [|lia].
    rewrite (pair_rank2_not_connected _ a b) in Hconn;
      [done|done|done|cbn [rk delete]; lia..].
Qed.

(** With SageMath's connectivity no deletion from the matroid of a graph is
    a connected matroid with two elements and rank 0: two elements of rank
    0 are two loops, each a component of its own. *)
Lemma no_connected_pair_of_rank_0 (g : Graph) (F : list nat) :
  ¬ (Py.len (Sage.groundset (Sage.delete (binary (incidence_matrix g)) F)) = 2 ∧
     Sage.rank (Sage.delete (binary (incidence_matrix g)) F) = 0 ∧
     Sage.is_connected (Sage.delete (binary (incidence_matrix g)) F) = true).
Proof.
  intros (Hlen & Hrank & Hconn).
  pose proof (connected_pair_rank _ F Hlen Hconn) as Hone.
  cbn in Hrank, Hone. lia.
Qed.

End PairFacts.

(** *** A connected pair of rank 0, for any library *)

Section RankZeroPair.
Context {M : Type} {L : Sage.MatroidLib M}.


End RankZeroPair.

Module PairExamples.
Import SageModel.


End PairExamples.

(** ** The degree partition *)

Module PartitionFacts.

Lemma foldl_max_spec (x : Z) (rest : list Z) :
  foldl Z.max x rest ∈ x :: rest ∧
  Forall (λ y, y ≤ foldl Z.max x rest) (x :: rest).
Proof.
  revert x. induction rest as [|y rest IH]; intros x; simpl.
  - split; [apply list_elem_of_here | by repeat constructor].
  - destruct (IH (x `max` y)) as [Hin Hall].
    apply Forall_cons in Hall as [Hxy Hall]. split.
    + apply elem_of_cons in Hin as [Heq|Hin].
      * rewrite Heq. destruct (Z.max_spec x y) as [[_ ->]|[_ ->]].
        -- apply list_elem_of_further, list_elem_of_here.
        -- apply list_elem_of_here.
      * by do 2 apply list_elem_of_further.
    + repeat constructor; [lia | lia | done].
Qed.

(** [max(xs)] is an element of [xs] that bounds every element. *)
Lemma py_max_Ok (xs : list Z) (top : Z) :
  py_max xs = Ok top ↔ top ∈ xs ∧ Forall (λ y, y ≤ top) xs.
Proof.
  destruct xs as [|x rest]; simpl.
  - split; [done | by intros [?%elem_of_nil _]].
  - pose proof (foldl_max_spec x rest) as [Hin Hall]. split.
    + by intros [= <-].
    + intros [Hin' Hall']. f_equal. apply Z.le_antisymm.
      * rewrite Forall_forall in Hall'. by apply Hall'.
      * rewrite Forall_forall in Hall. by apply Hall.
Qed.

Lemma py_max_Raise (xs : list Z) (e : exn) :
  py_max xs = Raise e ↔ xs = [] ∧ e = ValueError.
Proof.
  destruct xs; simpl; [|by split; [|intros [? _]]].
  split; [by intros [= <-] | by intros [_ ->]].
Qed.

Lemma py_max_Permutation (xs ys : list Z) : xs ≡ₚ ys → py_max xs = py_max ys.
Proof.
  intros Hperm. destruct (py_max xs) as [top|e] eqn:Hxs; symmetry.
  - apply py_max_Ok in Hxs as [Hin Hall]. apply py_max_Ok.
    by rewrite <- Hperm.
  - apply py_max_Raise in Hxs as [-> ->]. apply py_max_Raise.
    split; [|done]. symmetry. by apply Permutation_nil_l.
Qed.

Lemma count_Permutation (xs ys : list Z) (i : Z) :
  xs ≡ₚ ys → count xs i = count ys i.
Proof. intros Hperm. unfold count, Py.len. by rewrite Hperm. Qed.

(** The partition only depends on the multiset of degrees. *)
Lemma partition_Permutation (xs ys : list Z) :
  xs ≡ₚ ys → partition xs = partition ys.
Proof.
  intros Hperm. unfold partition. rewrite (py_max_Permutation _ _ Hperm).
  destruct (py_max ys) as [top|e]; simpl; [|done].
  f_equal. apply list_fmap_ext. intros _ i _. by apply count_Permutation.
Qed.

Lemma degree_sequence_Permutation (g : Graph) :
  degree_sequence g ≡ₚ degree g <$> vertices g.
Proof. apply merge_sort_Permutation. Qed.

Lemma count_degree_sequence (g : Graph) (i : Z) :
  count (degree_sequence g) i = vertices_of_degree g i.
Proof.
  rewrite (count_Permutation _ _ i (degree_sequence_Permutation g)).
  unfold count, vertices_of_degree, Py.len. f_equal.
  induction (vertices g) as [|v vs IH]; [done|].
  rewrite fmap_cons, !filter_cons.
  destruct (decide (degree g v = i)); simpl; by rewrite IH.
Qed.

Lemma py_max_degree_sequence (g : Graph) (d : Z) :
  py_max (degree_sequence g) = Ok d ↔ max_degree g d.
Proof.
  rewrite py_max_Ok, (degree_sequence_Permutation g). unfold max_degree.
  rewrite list_elem_of_fmap, Forall_fmap, Exists_exists.
  split; intros [(v & ? & ?) ?]; (split; [exists v|]; done).
Qed.

(** *** Renaming the vertices *)

Lemma incidence_renamed (σ : nat → nat) (v : nat) (e e' : nat * nat) :
  Inj (=) (=) σ → renamed_edge σ e e' → incidence (σ v) e' = incidence v e.
Proof.
  intros Hinj [-> | ->]; unfold incidence; cbn [fst snd];
    repeat case_decide; simplify_eq; try lia;
    exfalso; auto.
Qed.

Lemma sum_Permutation (xs ys : list Z) :
  xs ≡ₚ ys → foldr Z.add 0 xs = foldr Z.add 0 ys.
Proof. induction 1; simpl; lia. Qed.

Lemma sum_incidence_renamed (σ : nat → nat) (v : nat)
    (l l' : list (nat * nat)) :
  Inj (=) (=) σ → Forall2 (renamed_edge σ) l l' →
  foldr Z.add 0 (incidence (σ v) <$> l') = foldr Z.add 0 (incidence v <$> l).
Proof.
  intros Hinj. induction 1 as [|e e' l l' He _ IH]; [done|].
  rewrite !fmap_cons. cbn [foldr]. rewrite IH.
  by rewrite (incidence_renamed σ v e e').
Qed.

Lemma degree_renamed (σ : nat → nat) (g g' : Graph) (v : nat) :
  relabelling σ g g' → degree g' (σ v) = degree g v.
Proof.
  intros (Hinj & _ & es & Hperm & Hes). unfold degree.
  rewrite (sum_Permutation _ (incidence (σ v) <$> es)) by (by rewrite Hperm).
  by apply sum_incidence_renamed.
Qed.

Lemma degrees_relabelling (σ : nat → nat) (g g' : Graph) :
  relabelling σ g g' → degree_sequence g' ≡ₚ degree_sequence g.
Proof.
  intros Hrel. rewrite !degree_sequence_Permutation.
  destruct Hrel as (Hinj & Hvs & Hes). rewrite Hvs, <- list_fmap_compose.
  assert (Heq : degree g' ∘ σ <$> vertices g = degree g <$> vertices g).
  { apply list_fmap_ext. intros _ v _. simpl.
    by apply (degree_renamed σ g g'). }
  by rewrite Heq.
Qed.

(** C6: for a graph of largest degree [d ≥ 2] the partition key has one
    entry for each degree from 2 to [d], the number of vertices of that
    degree (so none for the degrees 0 and 1), and every renaming of the
    vertices, with the vertices and edges listed in any order, has the same
    key. *)
Theorem partition_key (g : Graph) (d : Z) :
  max_degree g d → 2 ≤ d →
  ∃ key,
    partition (degree_sequence g) = Ok key ∧
    Py.len key = d - 1 ∧
    (∀ i, 2 ≤ i ≤ d →
          key !! Z.to_nat (i - 2) = Some (vertices_of_degree g i)) ∧
    (∀ σ g', relabelling σ g g' → partition (degree_sequence g') = Ok key).
Proof.
  intros Hmax Hd. apply py_max_degree_sequence in Hmax.
  exists (count (degree_sequence g) <$> Py.range 2 (d + 1)).
  assert (Hkey : partition (degree_sequence g) =
                 Ok (count (degree_sequence g) <$> Py.range 2 (d + 1)))
    by (unfold partition; by rewrite Hmax).
  split_and!.
  - done.
  - unfold Py.len, Py.range. rewrite length_fmap, length_seqZ. lia.
  - intros i Hi. unfold Py.range. rewrite list_lookup_fmap.
    rewrite lookup_seqZ_lt by lia. simpl.
    rewrite count_degree_sequence. do 2 f_equal. lia.
  - intros σ g' Hrel. rewrite <- Hkey.
    apply partition_Permutation. by apply (degrees_relabelling σ).
Qed.

Lemma flip4_inj : Inj (=) (=) flip4.
Proof. intros x y. unfold flip4. repeat case_decide; lia. Qed.

Lemma diamond_relabelling : relabelling flip4 diamond diamond'.
Proof.
  split; [apply flip4_inj|]. split.
  - apply (bool_decide_unpack _). vm_compute. exact I.
  - exists [(3, 4); (2, 4); (1, 4); (2, 3); (1, 2)]%nat. split.
    + apply (bool_decide_unpack _). vm_compute. exact I.
    + repeat constructor; by right.
Qed.

(** The graph with degree sequence [3, 3, 2, 2]: the key counts two
    vertices of degree 2 and two of degree 3, also after renaming. *)
Lemma partition_key_diamond :
  max_degree diamond 3 ∧ 2 ≤ 3 ∧
  partition (degree_sequence diamond) = Ok [2; 2] ∧
  partition (degree_sequence diamond') = Ok [2; 2].
Proof.
  assert (Hmax : max_degree diamond 3)
    by (apply (bool_decide_unpack _); vm_compute; exact I).
  assert (Hd : 2 ≤ 3) by (vm_compute; discriminate).
  destruct (partition_key diamond 3 Hmax Hd) as (key & Hkey & _ & _ & Hrel).
  assert (Heq : key = [2; 2]).
  { assert (Hrun : partition (degree_sequence diamond) = Ok [2; 2])
      by (vm_compute; reflexivity).
    rewrite Hrun in Hkey. by injection Hkey as <-. }
  subst key. split; [exact Hmax|]. split; [exact Hd|]. split; [exact Hkey|].
  exact (Hrel flip4 diamond' diamond_relabelling).
Defined.

End PartitionFacts.

(** ** Strings: the text handed to the decoder *)

Module StringFacts.

Lemma last_char_Ok (s : string) (c : Ascii.ascii) :
  PyStr.last_char s = Ok c ↔
  ∃ init, String.list_ascii_of_string s = init ++ [c].
Proof.
  induction s as [|x s IH]; simpl.
  - split; [done|]. intros [init Hinit]. by destruct init.
  - destruct s as [|y s].
    + split.
      * intros [= ->]. by exists [].
      * intros [[|z init] Hinit]; simplify_eq/=; [done|]. by destruct init.
    + rewrite IH. split.
      * intros [init Hinit]. exists (x :: init). simpl in *. by rewrite Hinit.
      * intros [[|z init] Hinit]; simplify_eq/=. by exists init.
Qed.

Lemma last_char_Raise (s : string) (e : exn) :
  PyStr.last_char s = Raise e ↔ s = EmptyString ∧ e = IndexError.
Proof.
  induction s as [|x s IH]; simpl.
  - split; [by intros [= <-] | by intros [_ ->]].
  - destruct s as [|y s]; [by split; [|intros [? _]]|].
    rewrite IH. by split; intros [? _].
Qed.

(** Replacing a single character by the empty string removes every
    occurrence of it. *)
Lemma replace_char_filter (s : string) (c : Ascii.ascii) :
  PyStr.replace s (String c EmptyString) EmptyString =
  String.string_of_list_ascii
    (filter (λ x, x ≠ c) (String.list_ascii_of_string s)).
Proof.
  unfold PyStr.replace. induction s as [|x s IH]; [done|].
  cbn [PyStr.replace_from String.prefix String.list_ascii_of_string].
  rewrite filter_cons. destruct (Ascii.ascii_dec c x) as [->|Hne].
  - rewrite decide_False by (by intros ?).
    replace (String.prefix EmptyString s) with true by (by destruct s).
    exact IH.
  - rewrite decide_True by (by intros ->). simpl. by rewrite IH.
Qed.

Lemma filter_length_occurs {X} (P : X → Prop) `{!∀ x, Decision (P x)}
    (l : list X) (x : X) :
  x ∈ l → ¬ P x → (length (filter P l) < length l)%nat.
Proof. intros Hx HP. by eapply length_filter_lt. Qed.

Lemma filter_all {X} (P : X → Prop) `{!∀ x, Decision (P x)} (l : list X) :
  Forall P l → filter P l = l.
Proof.
  induction 1 as [|x l HP _ IH]; [done|].
  by rewrite filter_cons_True, IH.
Qed.

(** The lines of a file are its content cut after every newline: nothing
    is lost, no line is empty, and a newline can only be the last character
    of a line. *)
Lemma lines_content (content : string) :
  foldr String.append EmptyString (PyStr.lines content) = content.
Proof.
  induction content as [|x rest IH]; [done|]. simpl.
  case_decide; simpl; [by rewrite IH|].
  destruct (PyStr.lines rest) as [|l ls]; simpl in *; by rewrite <- IH.
Qed.

Lemma lines_shape (content line : string) :
  line ∈ PyStr.lines content →
  ∃ init c,
    String.list_ascii_of_string line = init ++ [c] ∧ PyStr.newline ∉ init.
Proof.
  revert line. induction content as [|x rest IH]; intros line; simpl.
  - by intros ?%elem_of_nil.
  - case_decide as Hx.
    + intros [-> | Hin]%elem_of_cons; [|by apply IH].
      exists [], x. split; [done | apply not_elem_of_nil].
    + destruct (PyStr.lines rest) as [|l ls].
      * intros ->%list_elem_of_singleton.
        exists [], x. split; [done | apply not_elem_of_nil].
      * intros [-> | Hin]%elem_of_cons.
        -- destruct (IH l) as (init & c & Hl & Hfresh);
             [apply list_elem_of_here|].
           exists (x :: init), c. simpl. rewrite Hl. split; [done|].
           intros [Heq | Hin]%elem_of_cons; [by apply Hx | by apply Hfresh].
        -- apply IH. by apply list_elem_of_further.
Qed.

End StringFacts.

(** ** The graph6 decoder: the length of a string fixes the vertex count *)

Module Graph6Facts.
Import Graph6.

Lemma sextet_length (c : Ascii.ascii) (bits : list bool) :
  sextet c = Ok bits → length bits = 6%nat.
Proof.
  unfold sextet. case_decide; [|done]. by intros [= <-].
Qed.

Lemma mapM_sextet_length (data : list Ascii.ascii) (sextets : list (list bool)) :
  mapM sextet data = Ok sextets →
  length (concat sextets) = (6 * length data)%nat.
Proof.
  revert sextets. induction data as [|c data IH]; intros sextets; simpl.
  - by intros [= <-].
  - destruct (sextet c) as [bits|e] eqn:Hc; simpl; [|done].
    destruct (mapM sextet data) as [rest|e] eqn:Hrest; simpl; [|done].
    intros [= <-]. simpl. rewrite length_app, (IH rest) by done.
    rewrite (sextet_length c bits) by done. lia.
Qed.

(** A string that decodes to [g] has one character for the vertex count and
    one for every six bits of the triangle. *)
Lemma from_graph6_length (s : string) (g : Graph) :
  from_graph6 s = Ok g →
  (6 * (length (String.list_ascii_of_string s) - 1) =
   expected_bits (length (vertices g)))%nat.
Proof.
  destruct s as [|c data]; [done|]. unfold from_graph6.
  case_decide; [|done].
  destruct (mapM sextet _) as [sextets|e] eqn:Hdata; simpl; [|done].
  case_decide as Hlen; [|done]. intros [= <-]. cbn [vertices].
  rewrite length_seq, <- Hlen, (mapM_sextet_length _ _ Hdata).
  simpl. lia.
Qed.

(** Two strings that decode to the same graph have the same length. *)
Lemma from_graph6_same_length (s t : string) (g : Graph) :
  from_graph6 s = Ok g → from_graph6 t = Ok g →
  length (String.list_ascii_of_string s) =
  length (String.list_ascii_of_string t).
Proof.
  intros Hs Ht.
  pose proof (from_graph6_length s g Hs) as Hls.
  pose proof (from_graph6_length t g Ht) as Hlt.
  assert (length (String.list_ascii_of_string s) ≠ 0)%nat
    by (destruct s; simpl; [done | lia]).
  assert (length (String.list_ascii_of_string t) ≠ 0)%nat
    by (destruct t; simpl; [done | lia]).
  lia.
Qed.

End Graph6Facts.

(** ** The classifier loop *)

Section ClassifierFacts.
Context {M : Type} `{!Sage.MatroidLib M}.
Variable from_graph6 : string → result Graph.
Variable automorphism_orbits : Graph → list (list nat).
Variable open_error : string → option exn.

(** C9: the string handed to the decoder is the line without any
    occurrence of its last character.  When that character is the final
    newline and occurs nowhere else, this is the line without its newline;
    when it also occurs earlier, characters inside the line are removed as
    well, the string is shorter than the line without its last character,
    and for a line that is itself the graph6 text of a graph the decoder
    no longer returns that graph. *)
Theorem g6_string_drops_every_occurrence
    (line : string) (init : list Ascii.ascii) (c : Ascii.ascii) :
  String.list_ascii_of_string line = init ++ [c] →
  let kept := filter (λ x, x ≠ c) (String.list_ascii_of_string line) in
  PyStr.last_char line = Ok c ∧
  g6_string_of line = Ok (String.string_of_list_ascii kept) ∧
  (c ∉ init → kept = init) ∧
  (c ∈ init →
     (length kept < length init)%nat ∧ kept ≠ init ∧
     ∀ g, Graph6.from_graph6 line = Ok g →
          Graph6.from_graph6 (String.string_of_list_ascii kept) ≠ Ok g).
Proof.
  intros Hline kept.
  assert (Hlast : PyStr.last_char line = Ok c)
    by (apply StringFacts.last_char_Ok; by exists init).
  assert (Hkept : kept = filter (λ x, x ≠ c) init).
  { subst kept. rewrite Hline, filter_app, filter_cons_False by (by intros ?).
    by rewrite filter_nil, app_nil_r. }
  split_and!.
  - done.
  - unfold g6_string_of. rewrite Hlast.
    unfold mbind, result_bind, mret, result_ret.
    by rewrite StringFacts.replace_char_filter.
  - intros Hfresh. rewrite Hkept.
    apply StringFacts.filter_all, Forall_forall.
    intros x Hx ->. done.
  - intros Hocc.
    assert (Hshort : (length kept < length init)%nat).
    { rewrite Hkept.
      apply (StringFacts.filter_length_occurs _ init c); [done | by intros ?]. }
    split_and!.
    + done.
    + intros Heq. rewrite Heq in Hshort. lia.
    + intros g Hg Hg'.
      pose proof (Graph6Facts.from_graph6_same_length _ _ _ Hg Hg') as Hlen.
      rewrite String.list_ascii_of_string_of_list_ascii, Hline, length_app in Hlen.
      simpl in Hlen. lia.
Qed.

(** One round of the loop, step by step. *)
Lemma classify_line_run (graph_write line : string) (fs : gmap string string) :
  classify_line from_graph6 automorphism_orbits open_error
       graph_write line fs =
  match g6_string_of line with
  | Raise e => (Raise e, fs)
  | Ok g6_string =>
      match from_graph6 g6_string with
      | Raise e => (Raise e, fs)
      | Ok my_graph =>
          match partition (degree_sequence my_graph) with
          | Raise e => (Raise e, fs)
          | Ok key =>
              if no_rigid_subchains my_graph 3 then
                match
                  append_file open_error
                    (graph_write +:+ "baranov_" +:+ PyStr.str_list key)
                    (g6_string +:+ String PyStr.newline EmptyString) fs
                with
                | (Raise e, fs1) => (Raise e, fs1)
                | (Ok _, fs1) =>
                    match number_assur automorphism_orbits my_graph with
                    | Raise e => (Raise e, fs1)
                    | Ok assur_per_graph =>
                        append_file open_error
                          (graph_write +:+ "assur_" +:+ PyStr.str_list key)
                          (assur_per_graph
                           +:+ String PyStr.newline EmptyString)
                          fs1
                    end
                end
              else (Ok (), fs)
          end
      end
  end.
Proof.
  unfold classify_line, mbind, io_bind, io_lift, mret, io_ret.
  destruct (g6_string_of line) as [g6_string|e]; [|done].
  destruct (from_graph6 g6_string) as [my_graph|e]; [|done].
  destruct (partition (degree_sequence my_graph)) as [key|e]; [|done].
  destruct (no_rigid_subchains my_graph 3); [|done].
  destruct (append_file _ _ _ fs) as [[[]|e] fs1]; [|done].
  by destruct (number_assur automorphism_orbits my_graph).
Qed.

(** A write to a path that can be opened. *)
Lemma append_file_Ok (path text : string) (fs : gmap string string) :
  open_error path = None →
  append_file open_error path text fs
  = (Ok (), <[path := default EmptyString (fs !! path) +:+ text]> fs).
Proof. intros Hopen. unfold append_file. by rewrite Hopen. Qed.

(** A write to a path that cannot be opened raises and changes nothing. *)
Lemma append_file_Raise (path text : string) (fs : gmap string string)
    (e : exn) :
  open_error path = Some e →
  append_file open_error path text fs = (Raise e, fs).
Proof. intros Hopen. unfold append_file. by rewrite Hopen. Qed.

(** An exception of a write leaves the files as they were. *)
Lemma append_file_unchanged (path text : string) (fs fs' : gmap string string)
    (e : exn) :
  append_file open_error path text fs = (Raise e, fs') → fs' = fs.
Proof. unfold append_file. destruct (open_error path); by intros [= _ <-]. Qed.

(** C8: for a line that decodes to a graph on which [no_rigid_subchains]
    returns [False], the round writes nothing, whatever the orbit
    computation would do; when it returns [True] and both files can be
    opened, the round appends the graph6 string to the [baranov_] file of
    the partition and then the orbit count to its [assur_] file.  A round
    that changes any file is a round whose graph passed the test. *)
Theorem orbit_count_only_when_passing
    (graph_write line g6_string : string) (my_graph : Graph) (key : list Z)
    (fs : gmap string string) :
  g6_string_of line = Ok g6_string →
  from_graph6 g6_string = Ok my_graph →
  partition (degree_sequence my_graph) = Ok key →
  let baranov := graph_write +:+ "baranov_" +:+ PyStr.str_list key in
  let assur := graph_write +:+ "assur_" +:+ PyStr.str_list key in
  let fs1 :=
    <[baranov := default EmptyString (fs !! baranov)
                 +:+ (g6_string +:+ String PyStr.newline EmptyString)]> fs in
  (no_rigid_subchains my_graph 3 = false →
   classify_line from_graph6 automorphism_orbits open_error
       graph_write line fs
   = (Ok (), fs)) ∧
  (no_rigid_subchains my_graph 3 = true →
   open_error baranov = None → open_error assur = None →
   ∀ label, number_assur automorphism_orbits my_graph = Ok label →
     classify_line from_graph6 automorphism_orbits open_error
       graph_write line fs
     = (Ok (),
        <[assur := default EmptyString (fs1 !! assur)
                   +:+ (label +:+ String PyStr.newline EmptyString)]> fs1)) ∧
  (∀ line' fs',
     (classify_line from_graph6 automorphism_orbits open_error
       graph_write line' fs').2
       ≠ fs' →
     ∃ g6_string' my_graph',
       g6_string_of line' = Ok g6_string' ∧
       from_graph6 g6_string' = Ok my_graph' ∧
       no_rigid_subchains my_graph' 3 = true).
Proof.
  intros Hg6 Hgraph Hkey baranov assur fs1. split_and!.
  - intros Htest. by rewrite classify_line_run, Hg6, Hgraph, Hkey, Htest.
  - intros Htest Hbaranov Hassur label Hlabel.
    rewrite classify_line_run, Hg6, Hgraph, Hkey, Htest.
    rewrite (append_file_Ok _ _ _ Hbaranov), Hlabel.
    by rewrite (append_file_Ok _ _ _ Hassur).
  - intros line' fs'. rewrite classify_line_run.
    destruct (g6_string_of line') as [g6_string'|e] eqn:Hg6'; [|done].
    destruct (from_graph6 g6_string') as [my_graph'|e] eqn:Hgraph'; [|done].
    destruct (partition (degree_sequence my_graph')) as [key'|e]; [|done].
    destruct (no_rigid_subchains my_graph' 3) eqn:Htest; [|done].
    intros _. exists g6_string', my_graph'. split_and!; done.
Qed.

(** The loop over the lines stops at the first line that raises. *)
Lemma io_for_stops {A} (body : A → io unit) (pre rest : list A) (x : A)
    (fs0 fs fs' : gmap string string) (e : exn) :
  io_for pre body fs0 = (Ok (), fs) →
  body x fs = (Raise e, fs') →
  io_for (pre ++ x :: rest) body fs0 = (Raise e, fs').
Proof.
  revert fs0. induction pre as [|y pre IH]; intros fs0; simpl.
  - intros [= <-] Hx. unfold mbind, io_bind. by rewrite Hx.
  - unfold mbind, io_bind. destruct (body y fs0) as [[[]|e'] fs1]; [|done].
    apply IH.
Qed.

(** C10: a graph without vertices has an empty degree sequence, of which
    [max] raises [ValueError]: the partition key is not computed, the round
    for such a line ends in that exception without writing, and the loop of
    [graphs_from_txt] stops there.  The key exists exactly for the graphs
    with at least one vertex. *)
Theorem empty_graph_has_no_partition
    (graph_write line g6_string : string) (my_graph : Graph)
    (fs : gmap string string) :
  g6_string_of line = Ok g6_string →
  from_graph6 g6_string = Ok my_graph →
  vertices my_graph = [] →
  degree_sequence my_graph = [] ∧
  partition (degree_sequence my_graph) = Raise ValueError ∧
  classify_line from_graph6 automorphism_orbits open_error
       graph_write line fs
  = (Raise ValueError, fs) ∧
  (∀ pre rest fs0,
     io_for pre (classify_line from_graph6 automorphism_orbits open_error
       graph_write)
       fs0 = (Ok (), fs) →
     io_for (pre ++ line :: rest)
       (classify_line from_graph6 automorphism_orbits open_error
       graph_write) fs0
     = (Raise ValueError, fs)) ∧
  (∀ g, (∃ key, partition (degree_sequence g) = Ok key) ↔ vertices g ≠ []).
Proof.
  intros Hg6 Hgraph Hempty.
  assert (Hseq : degree_sequence my_graph = [])
    by (unfold degree_sequence; by rewrite Hempty).
  assert (Hround :
    classify_line from_graph6 automorphism_orbits open_error
       graph_write line fs
    = (Raise ValueError, fs))
    by (by rewrite classify_line_run, Hg6, Hgraph, Hseq).
  split_and!.
  - done.
  - by rewrite Hseq.
  - done.
  - intros pre rest fs0 Hpre. by eapply io_for_stops.
  - intros g. unfold partition.
    destruct (py_max (degree_sequence g)) as [top|e] eqn:Hmax; simpl.
    + split; [|by eauto]. intros _ Hnil.
      apply PartitionFacts.py_max_Ok in Hmax as [Hin _].
      rewrite PartitionFacts.degree_sequence_Permutation, Hnil in Hin.
      by apply elem_of_nil in Hin.
    + split; [by intros [key [=]]|]. intros Hne. exfalso.
      apply PartitionFacts.py_max_Raise in Hmax as [Hnil _].
      pose proof (PartitionFacts.degree_sequence_Permutation g) as Hperm.
      rewrite Hnil in Hperm. apply Permutation_nil_l in Hperm.
      symmetry in Hperm. apply fmap_nil_inv in Hperm. by apply Hne.
Qed.

End ClassifierFacts.

(** ** The classifier on concrete lines *)

Module ClassifierExamples.
Import SageModel.

(** Two lines: the complete graph on four vertices, ["C~"], contains
    triangles and is dropped without a record; the four-bar linkage,
    ["Cl"], is written with its orbit count. *)
Lemma orbit_count_only_when_passing_lines :
  classify_line (M := matroid) Graph6.from_graph6 one_orbit all_writable
    "my_output/" (text_line "C~") ∅
  = (Ok (), ∅) ∧
  classify_line (M := matroid) Graph6.from_graph6 one_orbit all_writable
    "my_output/" (text_line "Cl") ∅
  = (Ok (), <["my_output/assur_[4]" := text_line "1"]>
              (<["my_output/baranov_[4]" := text_line "Cl"]> ∅)).
Proof.
  split.
  - refine (proj1 (orbit_count_only_when_passing (M := matroid)
                     Graph6.from_graph6 one_orbit all_writable "my_output/"
                     (text_line "C~") "C~"
                     {| vertices := [0; 1; 2; 3]%nat;
                        edges := [(0, 1); (0, 2); (1, 2);
                                  (0, 3); (1, 3); (2, 3)]%nat |}
                     [0; 4] ∅ _ _ _) _); vm_compute; reflexivity.
  - refine (proj1 (proj2 (orbit_count_only_when_passing (M := matroid)
                     Graph6.from_graph6 one_orbit all_writable "my_output/"
                     (text_line "Cl") "Cl"
                     {| vertices := [0; 1; 2; 3]%nat;
                        edges := [(0, 1); (1, 2); (0, 3); (2, 3)]%nat |}
                     [4] ∅ _ _ _)) _ _ _ "1" _); vm_compute; reflexivity.
Defined.

(** A whole file: of the two lines only the four-bar linkage is recorded. *)
Lemma graphs_from_txt_two_lines :
  graphs_from_txt (M := matroid) Graph6.from_graph6 one_orbit all_writable
    "my_input/graphs.txt" "my_output/"
    {["my_input/graphs.txt" := text_line "C~" +:+ text_line "Cl"]}
  = (Ok (),
     <["my_output/assur_[4]" := text_line "1"]>
       (<["my_output/baranov_[4]" := text_line "Cl"]>
          {["my_input/graphs.txt" := text_line "C~" +:+ text_line "Cl"]})).
Proof. vm_compute. reflexivity. Qed.

(** The unterminated last line ["DCC"]: its last character also
    occurs inside, the decoder receives ["D"] and fails on it. *)
Lemma g6_string_drops_every_occurrence_DCC :
  g6_string_of "DCC" = Ok "D" ∧
  Graph6.from_graph6 "D" ≠ Graph6.from_graph6 "DCC".
Proof.
  destruct (g6_string_drops_every_occurrence "DCC"
              (String.list_ascii_of_string "DC") (Ascii.ascii_of_nat 67) eq_refl)
    as (_ & Hg6 & _ & Hocc).
  split; [exact Hg6|].
  destruct Hocc as (_ & _ & Hdiff).
  - apply (bool_decide_unpack _). vm_compute. exact I.
  - intros Heq. apply (Hdiff {| vertices := [0; 1; 2; 3; 4]%nat;
                                edges := [(0, 3); (3, 4)]%nat |}).
    + vm_compute. reflexivity.
    + transitivity (Graph6.from_graph6 "DCC"); [|vm_compute; reflexivity].
      rewrite <- Heq. vm_compute. reflexivity.
Defined.

(** The line ["?"], the graph6 text of the graph without vertices. *)
Lemma empty_graph_has_no_partition_line :
  g6_string_of (text_line "?") = Ok "?" ∧
  Graph6.from_graph6 "?" = Ok {| vertices := []; edges := [] |} ∧
  classify_line (M := matroid) Graph6.from_graph6 one_orbit all_writable
    "my_output/" (text_line "?") ∅
  = (Raise ValueError, ∅).
Proof.
  assert (Hg6 : g6_string_of (text_line "?") = Ok "?")
    by (vm_compute; reflexivity).
  assert (Hgraph :
    Graph6.from_graph6 "?" = Ok {| vertices := []; edges := [] |})
    by (vm_compute; reflexivity).
  split; [exact Hg6|]. split; [exact Hgraph|].
  exact (proj1 (proj2 (proj2
    (empty_graph_has_no_partition (M := matroid) Graph6.from_graph6 one_orbit all_writable
       "my_output/" (text_line "?") "?" {| vertices := []; edges := [] |} ∅
       Hg6 Hgraph eq_refl)))).
Defined.

End ClassifierExamples.

(** ** The evaluator on the objects of a library *)

Section ObjectFacts.
Context {S R V : Type}.
Variable O : Obj.Library S R.
Variable L : Sage.MatroidLib V.
Variable den : S → R → option V.

Lemma obj_bind_run {A B} (c : obj (S := S) A) (k : A → obj B) (σ : S) :
  (c ≫= k) σ = k (c σ).1 (c σ).2.
Proof. unfold mbind, obj_bind. by destruct (c σ). Qed.

Lemma keeps_refl (σ : S) : keeps den σ σ.
Proof. by intros r m. Qed.

Lemma keeps_trans (σ1 σ2 σ3 : S) :
  keeps den σ1 σ2 → keeps den σ2 σ3 → keeps den σ1 σ3.
Proof. intros H12 H23 r m Hr. by apply H23, H12. Qed.

(** A loop whose body, wherever an invariant of the state holds, returns a
    value that does not depend on the state and keeps the invariant,
    returns the result of the loop of these values and keeps the
    invariant. *)
Lemma for_in_obj_run {A B} (Inv : S → Prop) (xs : list A)
    (body : A → obj (option B)) (value : A → option B) (σ : S) :
  (∀ x σ1, Inv σ1 → (body x σ1).1 = value x ∧ Inv (body x σ1).2) →
  Inv σ →
  (for_in_obj xs body σ).1 = Py.for_in xs value ∧
  Inv (for_in_obj xs body σ).2.
Proof.
  intros Hbody. revert σ.
  induction xs as [|x xs IH]; intros σ Hinv; simpl; [done|].
  rewrite obj_bind_run.
  destruct (Hbody x σ Hinv) as [Hval Hinv']. rewrite Hval.
  destruct (value x) as [v|]; [done|]. by apply IH.
Qed.

(** One co-flat: the verdict is that of [check_co_flat] on the matroid the
    object stands for, and the objects are kept. *)
Lemma check_co_flat_obj_run (my_matroid : R) (m : V) (my_groundset : list nat)
    (screw_system : Z) (co_flat : list nat) (σ : S) :
  observably_pure O L den →
  den σ my_matroid = Some m →
  let run :=
    (sub_matroid ← Obj.delete O my_matroid co_flat;
     connected ← Obj.is_connected O sub_matroid;
     if connected : bool then
       sub_groundset ← Obj.groundset O sub_matroid;
       sub_rank ← Obj.rank O sub_matroid;
       let sub_joints := Py.len sub_groundset in
       let sub_mobility := mobility sub_rank sub_joints screw_system in
       if (sub_mobility <=? 0) && (sub_joints <? Py.len my_groundset)
       then mret (Some false)
       else mret None
     else mret None : obj (option bool)) σ in
  run.1 = check_co_flat m my_groundset screw_system co_flat ∧
  keeps den σ run.2.
Proof.
  intros Hpure Hm. cbn zeta. rewrite obj_bind_run.
  destruct (pure_delete _ _ _ Hpure my_matroid m co_flat σ Hm) as [Hsub H1].
  set (sub := (Obj.delete O my_matroid co_flat σ).1) in *.
  set (σ1 := (Obj.delete O my_matroid co_flat σ).2) in *.
  rewrite obj_bind_run.
  destruct (pure_is_connected _ _ _ Hpure sub _ σ1 Hsub) as [Hconn H2].
  set (σ2 := (Obj.is_connected O sub σ1).2) in *.
  assert (Hsub2 : den σ2 sub = Some (Sage.delete m co_flat)) by (by apply H2).
  unfold check_co_flat. rewrite Hconn.
  destruct (Sage.is_connected (Sage.delete m co_flat)).
  - rewrite obj_bind_run.
    destruct (pure_groundset _ _ _ Hpure sub _ σ2 Hsub2) as [Hground H3].
    set (σ3 := (Obj.groundset O sub σ2).2) in *.
    assert (Hsub3 : den σ3 sub = Some (Sage.delete m co_flat))
      by (by apply H3).
    rewrite obj_bind_run.
    destruct (pure_rank _ _ _ Hpure sub _ σ3 Hsub3) as [Hrank H4].
    rewrite Hground, Hrank. cbn zeta.
    assert (Hkeeps : keeps den σ (Obj.rank O sub σ3).2).
    { eapply keeps_trans; [exact H1|]. eapply keeps_trans; [exact H2|].
      eapply keeps_trans; [exact H3|exact H4]. }
    by destruct (_ && _).
  - split; [done|]. by eapply keeps_trans.
Qed.

(** The run of the evaluator from any state of the library: the result is
    the value of [no_rigid_subchains] on matroid values, and the objects
    are kept. *)
Lemma no_rigid_subchains_obj_run (g : Graph) (screw_system : Z) (σ : S) :
  observably_pure O L den →
  (no_rigid_subchains_obj O g screw_system σ).1
    = @no_rigid_subchains V L g screw_system ∧
  keeps den σ (no_rigid_subchains_obj O g screw_system σ).2.
Proof.
  intros Hpure. unfold no_rigid_subchains_obj, no_rigid_subchains.
  set (m := Sage.Matroid (incidence_matrix g)).
  rewrite obj_bind_run.
  destruct (pure_Matroid _ _ _ Hpure (incidence_matrix g) σ) as [Hm H1].
  fold m in Hm.
  set (rm := (Obj.Matroid O (incidence_matrix g) σ).1) in *.
  set (σ1 := (Obj.Matroid O (incidence_matrix g) σ).2) in *.
  rewrite obj_bind_run.
  destruct (pure_groundset _ _ _ Hpure rm m σ1 Hm) as [Hground H2].
  set (σ2 := (Obj.groundset O rm σ1).2) in *.
  assert (Hm2 : den σ2 rm = Some m) by (by apply H2).
  rewrite obj_bind_run.
  destruct (pure_rank _ _ _ Hpure rm m σ2 Hm2) as [_ H3].
  set (σ3 := (Obj.rank O rm σ2).2) in *.
  assert (Hm3 : den σ3 rm = Some m) by (by apply H3).
  rewrite obj_bind_run.
  destruct (pure_dual _ _ _ Hpure rm m σ3 Hm3) as [Hd H4].
  set (rd := (Obj.dual O rm σ3).1) in *.
  set (σ4 := (Obj.dual O rm σ3).2) in *.
  assert (Hm4 : den σ4 rm = Some m) by (by apply H4).
  rewrite obj_bind_run.
  destruct (pure_rank _ _ _ Hpure rd _ σ4 Hd) as [Hdrank H5].
  set (σ5 := (Obj.rank O rd σ4).2) in *.
  assert (Hstart : keeps den σ σ5).
  { eapply keeps_trans; [exact H1|]. eapply keeps_trans; [exact H2|].
    eapply keeps_trans; [exact H3|]. eapply keeps_trans; [exact H4|].
    exact H5. }
  rewrite Hdrank, Hground. rewrite obj_bind_run.
  set (Inv := λ σ', den σ' rm = Some m ∧ den σ' rd = Some (Sage.dual m) ∧
                    keeps den σ σ').
  match goal with
  | |- context [for_in_obj ?xs ?body σ5] =>
      destruct (for_in_obj_run Inv xs body
                  (λ co_rank,
                     Py.for_in (Sage.flats (Sage.dual m) co_rank)
                       (check_co_flat m (Sage.groundset m) screw_system))
                  σ5) as [Hloop Hend]
  end.
  - intros co_rank σa (Hma & Hda & Hka). rewrite obj_bind_run.
    destruct (pure_flats _ _ _ Hpure rd _ co_rank σa Hda) as [Hflats Hkb].
    rewrite Hflats.
    apply (for_in_obj_run Inv).
    + intros co_flat σb (Hmb & Hdb & Hkb').
      destruct (check_co_flat_obj_run rm m (Sage.groundset m) screw_system
                  co_flat σb Hpure Hmb) as [Hval Hkc].
      cbn zeta in Hval, Hkc. split; [exact Hval|].
      split_and!; [by apply Hkc | by apply Hkc | by eapply keeps_trans].
    + split_and!; [by apply Hkb | by apply Hkb | by eapply keeps_trans].
  - split_and!; [by apply H5 | by apply H5 | done].
  - rewrite Hloop. split; [done|]. apply Hend.
Qed.


End ObjectFacts.

(** *** The two libraries with state *)

Module ObjectExamples.
Import SageModel.



(** The hidden state of the counting library does change: an invocation on
    the four-bar linkage serves 13 calls and leaves 4 objects. *)
Lemma counting_changes_state :
  let first :=
    no_rigid_subchains_obj (counting matroid_lib) four_bar 3 ([], 0%nat) in
  first.2.2 = 13%nat ∧ length first.2.1 = 4%nat.
Proof. vm_compute. done. Qed.

(** With the library that answers one connectivity question, two
    invocations on the triangle with a pendant edge disagree: the first
    finds the triangle, the second finds nothing.  This library has
    observable state, and the evaluator shows it. *)
Lemma one_answer_is_not_pure :
  let first :=
    no_rigid_subchains_obj (one_answer matroid_lib) tri_pendant 3
      ([], false) in
  let second :=
    no_rigid_subchains_obj (one_answer matroid_lib) tri_pendant 3 first.2 in
  first.1 = false ∧ second.1 = true ∧
  ¬ observably_pure (one_answer matroid_lib) matroid_lib heap_den.
Proof.
  cbn zeta.
  assert (H1 : (no_rigid_subchains_obj (one_answer matroid_lib) tri_pendant 3
                  ([], false)).1 = false) by (vm_compute; reflexivity).
  assert (H2 : (no_rigid_subchains_obj (one_answer matroid_lib) tri_pendant 3
                  (no_rigid_subchains_obj (one_answer matroid_lib)
                     tri_pendant 3 ([], false)).2).1 = true)
    by (vm_compute; reflexivity).
  split_and!; [done..|]. intros Hpure.
  destruct (no_rigid_subchains_obj_run _ _ _ tri_pendant 3 ([], false) Hpure)
    as [Hfirst _].
  destruct (no_rigid_subchains_obj_run _ _ _ tri_pendant 3
              (no_rigid_subchains_obj (one_answer matroid_lib)
                 tri_pendant 3 ([], false)).2 Hpure) as [Hsecond _].
  rewrite H1 in Hfirst. rewrite H2 in Hsecond. congruence.
Qed.

End ObjectExamples.

(** * Further properties of the code *)

(** ** The evaluator *)

Section EvaluatorMore.
Context {M : Type}.

(** X1: the verdict does not depend on how the library lists the flats of a
    rank: a library whose [flats] has the same members, in any order and
    with any repetition, gives the same result. *)
Theorem no_rigid_subchains_flats_order (L : Sage.MatroidLib M)
    (flats' : M → Z → list (list nat)) (g : Graph) (screw_system : Z) :
  (∀ m k F, F ∈ flats' m k ↔ F ∈ @Sage.flats M L m k) →
  @no_rigid_subchains M (with_flats L flats') g screw_system =
  @no_rigid_subchains M L g screw_system.
Proof.
  intros Hsame.
  pose proof (@no_rigid_subchains_false M (with_flats L flats') g screw_system)
    as Hnew.
  pose proof (@no_rigid_subchains_false M L g screw_system) as Hold.
  assert (Hiff :
    @has_rigid_subchain M (with_flats L flats')
      (@Sage.Matroid M (with_flats L flats') (incidence_matrix g)) screw_system
    ↔ @has_rigid_subchain M L
      (@Sage.Matroid M L (incidence_matrix g)) screw_system).
  { unfold has_rigid_subchain, rigid_subchain. cbn.
    split; intros (co_rank & F & Hrange & HF & Hrigid);
      exists co_rank, F; (split; [done|]); (split; [|done]);
      by apply Hsame. }
  destruct (@no_rigid_subchains M (with_flats L flats') g screw_system),
    (@no_rigid_subchains M L g screw_system); try done.
  - assert (true = false) by (apply Hnew, Hiff, Hold; done). done.
  - assert (true = false) by (apply Hold, Hiff, Hnew; done). done.
Qed.

End EvaluatorMore.

Module EvaluatorModel.
Import SageModel.

(** The library with every list of flats reversed gives the same verdict on
    the triangle with a pendant edge. *)
Lemma no_rigid_subchains_flats_order_reversed :
  @no_rigid_subchains matroid
    (with_flats matroid_lib (λ m k, reverse (flats m k))) tri_pendant 3 =
  @no_rigid_subchains matroid matroid_lib tri_pendant 3.
Proof.
  apply no_rigid_subchains_flats_order.
  intros m k F. apply elem_of_reverse.
Defined.

Lemma empty_not_connected (m : matroid) : E m = [] → is_connected m = false.
Proof.
  intros HE. unfold is_connected, components, basis. by rewrite HE.
Qed.

(** A sub-matroid has at most as many independent elements as elements. *)
Lemma delete_rank_le (A : Matrix) (F : list nat) :
  Sage.rank (delete (binary A) F)
  ≤ Py.len (Sage.groundset (delete (binary A) F)).
Proof. apply BinaryFacts.rk_bounds. Qed.

(** X2: a chain that is rejected for one screw system is rejected for every
    larger one: the mobility of a sub-matroid, whose rank is at most its
    size, does not grow with the screw system. *)
Theorem no_rigid_subchains_screw_monotone (g : Graph) (s s' : Z) :
  s ≤ s' →
  no_rigid_subchains (M := matroid) g s = false →
  no_rigid_subchains (M := matroid) g s' = false.
Proof.
  intros Hle Hfalse. apply no_rigid_subchains_false.
  apply no_rigid_subchains_false in Hfalse
    as (co_rank & F & Hrange & HF & Hconn & Hmob & Hsize).
  exists co_rank, F. split; [done|]. split; [done|].
  split; [done|]. split; [|done].
  pose proof (delete_rank_le (incidence_matrix g) F) as Hrank.
  unfold mobility in *. cbn in *. nia.
Qed.

Lemma no_rigid_subchains_screw_monotone_tri_pendant :
  no_rigid_subchains (M := matroid) tri_pendant 2 = true ∧
  no_rigid_subchains (M := matroid) tri_pendant 3 = false ∧
  no_rigid_subchains (M := matroid) tri_pendant 4 = false.
Proof.
  assert (H3 : no_rigid_subchains (M := matroid) tri_pendant 3 = false)
    by (vm_compute; reflexivity).
  split; [vm_compute; reflexivity|]. split; [exact H3|].
  apply (no_rigid_subchains_screw_monotone tri_pendant 3 4); [|exact H3].
  vm_compute. discriminate.
Defined.

(** X3: a graph without edges has the empty matroid, whose only candidate
    is the empty sub-matroid, which is not connected: the evaluator returns
    [True] for every screw system, and when the graph has a vertex its
    partition key is the empty list. *)
Theorem no_rigid_subchains_no_edges (vs : list nat) (screw_system : Z) :
  no_rigid_subchains (M := matroid) {| vertices := vs; edges := [] |}
    screw_system = true ∧
  (vs ≠ [] →
   partition (degree_sequence {| vertices := vs; edges := [] |}) = Ok []).
Proof.
  split; [by vm_compute|].
  intros Hvs.
  assert (Hmax : max_degree {| vertices := vs; edges := [] |} 0).
  { split.
    - destruct vs as [|v vs]; [done|]. by apply Exists_cons_hd.
    - apply Forall_forall. by intros v _. }
  apply PartitionFacts.py_max_degree_sequence in Hmax.
  unfold partition. by rewrite Hmax.
Qed.

(** *** The last round of the loop *)

Lemma length_list_difference (l k : list nat) :
  NoDup l → NoDup k → k ⊆ l →
  (length (list_difference l k) + length k = length l)%nat.
Proof.
  intros Hl Hk Hsub. rewrite <- length_app. apply Permutation_length.
  apply NoDup_Permutation; [|done|].
  - apply NoDup_app. split_and!; [by apply NoDup_list_difference| |done].
    intros x Hx%list_elem_of_difference. tauto.
  - intros x. rewrite elem_of_app, list_elem_of_difference.
    destruct (decide (x ∈ k)); [|tauto].
    split; [intros _; by apply Hsub | tauto].
Qed.

Lemma dual_full_rank (A : Matrix) :
  full_rank (dual (binary A)) = Py.len (E (binary A)) - full_rank (binary A).
Proof.
  unfold full_rank at 1. unfold dual. cbn [rk E].
  rewrite DualFacts.list_difference_self, BinaryFacts.rk_nil. lia.
Qed.

(** No subset of the groundset has a larger dual rank than the groundset. *)
Lemma dual_rk_le_top (A : Matrix) (X : list nat) :
  NoDup X → X ⊆ E (binary A) →
  rk (dual (binary A)) X ≤ full_rank (dual (binary A)).
Proof.
  intros Hnd Hsub. rewrite dual_full_rank. unfold dual. cbn [rk E].
  pose proof (BinaryFacts.rk_bounds A (list_difference (E (binary A)) X))
    as [_ Hle].
  pose proof (length_list_difference (E (binary A)) X
                (BinaryFacts.NoDup_E A) Hnd Hsub) as Hlen.
  unfold Py.len in *. lia.
Qed.

Lemma sublists_NoDup (l F : list nat) :
  NoDup l → F ∈ sublists l → NoDup F.
Proof.
  intros Hl HF. rewrite (BinaryFacts.sublists_filter l F Hl HF).
  by apply NoDup_filter.
Qed.

(** The whole groundset is the only flat of the dual of the top rank. *)
Lemma dual_flats_top (A : Matrix) :
  flats (dual (binary A)) (full_rank (dual (binary A))) = [E (binary A)].
Proof.
  unfold flats. cbn [E dual]. apply BinaryFacts.filter_only.
  - apply BinaryFacts.NoDup_sublists, BinaryFacts.NoDup_E.
  - assert (Hall : filter (λ _, True) (E (binary A)) = E (binary A))
      by (by apply StringFacts.filter_all, Forall_forall).
    rewrite <- Hall at 1. apply BinaryFacts.filter_in_sublists.
  - split; [|done]. apply Forall_forall. intros e He. by left.
  - intros F HF [Hflat Htop].
    pose proof (sublists_NoDup _ _ (BinaryFacts.NoDup_E A) HF) as HndF.
    pose proof (BinaryFacts.sublists_subseteq _ _ HF) as HsubF.
    rewrite (BinaryFacts.sublists_filter _ F (BinaryFacts.NoDup_E A) HF).
    apply StringFacts.filter_all, Forall_forall. intros e He.
    unfold is_flat in Hflat. rewrite Forall_forall in Hflat.
    destruct (decide (e ∈ F)) as [|HeF]; [done|].
    destruct (Hflat e He) as [|Hlt]; [done|]. exfalso.
    assert (Hle : rk (dual (binary A)) (F ++ [e])
                  ≤ full_rank (dual (binary A))).
    { apply dual_rk_le_top.
      - apply NoDup_app. split_and!; [done| |apply NoDup_singleton].
        intros x Hx ->%list_elem_of_singleton. done.
      - intros x [Hx| ->%list_elem_of_singleton]%elem_of_app;
          [by apply HsubF | done]. }
    lia.
Qed.

(** X4: the last round of the loop, at the rank of the dual, has exactly one
    co-flat, the whole groundset; its deletion is the matroid without
    elements, which is not connected, so this round never returns [False]. *)
Theorem top_co_rank_round (g : Graph) (screw_system : Z) :
  let m := Sage.Matroid (M := matroid) (incidence_matrix g) in
  Sage.rank (Sage.dual m) ∈ Py.range 0 (Sage.rank (Sage.dual m) + 1) ∧
  Sage.flats (Sage.dual m) (Sage.rank (Sage.dual m)) = [Sage.groundset m] ∧
  Sage.groundset (Sage.delete m (Sage.groundset m)) = [] ∧
  Sage.is_connected (Sage.delete m (Sage.groundset m)) = false ∧
  Py.for_in (Sage.flats (Sage.dual m) (Sage.rank (Sage.dual m)))
    (check_co_flat m (Sage.groundset m) screw_system) = None.
Proof.
  intros m.
  assert (Hflats :
    Sage.flats (Sage.dual m) (Sage.rank (Sage.dual m)) = [Sage.groundset m])
    by apply dual_flats_top.
  assert (Hempty : Sage.groundset (Sage.delete m (Sage.groundset m)) = [])
    by apply DualFacts.list_difference_self.
  assert (Hconn : Sage.is_connected (Sage.delete m (Sage.groundset m)) = false)
    by (by apply empty_not_connected).
  split_and!; try done.
  - apply elem_of_range.
    pose proof (DualFacts.dual_rank_nonneg (incidence_matrix g)).
    cbn in *. lia.
  - rewrite Hflats. cbn [Py.for_in]. unfold check_co_flat. by rewrite Hconn.
Qed.

End EvaluatorModel.

(** ** Strings and the lines of a file *)

Module StringMore.

Lemma append_cons (x : Ascii.ascii) (a b : string) :
  String x a +:+ b = String x (a +:+ b).
Proof. reflexivity. Qed.

Lemma append_nil_l (a : string) : EmptyString +:+ a = a.
Proof. reflexivity. Qed.

Lemma append_nil_r (a : string) : a +:+ EmptyString = a.
Proof.
  induction a as [|x a IH]; [done|]. by rewrite append_cons, IH.
Qed.

Lemma append_assoc (a b c : string) : (a +:+ b) +:+ c = a +:+ (b +:+ c).
Proof.
  induction a as [|x a IH]; [done|]. by rewrite !append_cons, IH.
Qed.

Lemma list_ascii_append (a b : string) :
  String.list_ascii_of_string (a +:+ b) =
  String.list_ascii_of_string a ++ String.list_ascii_of_string b.
Proof.
  induction a as [|x a IH]; [done|]. rewrite append_cons. simpl. by rewrite IH.
Qed.

Lemma prefix_append (a b : string) : String.prefix a (a +:+ b) = true.
Proof.
  induction a as [|x a IH]; [by destruct b|].
  rewrite append_cons. simpl. by destruct (Ascii.ascii_dec x x).
Qed.

Lemma list_ascii_inj (a b : string) :
  String.list_ascii_of_string a = String.list_ascii_of_string b → a = b.
Proof.
  intros Heq. rewrite <- (String.string_of_list_ascii_of_string a),
    <- (String.string_of_list_ascii_of_string b). by rewrite Heq.
Qed.

Lemma lines_nonempty (content : string) :
  content ≠ EmptyString → PyStr.lines content ≠ [].
Proof.
  destruct content as [|x rest]; [done|]. intros _. simpl.
  case_decide; [done|]. by destruct (PyStr.lines rest).
Qed.

(** A text that ends with a newline can be cut off the front of a file
    without changing the lines. *)
Lemma lines_append (c1 c2 : string) :
  PyStr.last_char c1 = Ok PyStr.newline →
  PyStr.lines (c1 +:+ c2) = PyStr.lines c1 ++ PyStr.lines c2.
Proof.
  induction c1 as [|x r IH]; [done|]. intros Hlast.
  rewrite append_cons. cbn [PyStr.lines].
  destruct r as [|y r'].
  - simpl in Hlast. injection Hlast as ->.
    rewrite decide_True by done. by rewrite append_nil_l.
  - assert (Hr : PyStr.last_char (String y r') = Ok PyStr.newline)
      by exact Hlast.
    rewrite (IH Hr). case_decide; [done|].
    pose proof (lines_nonempty (String y r') ltac:(done)) as Hne.
    by destruct (PyStr.lines (String y r')).
Qed.

End StringMore.

(** ** The loop over the lines, further *)

Section LoopMore.
Context {M : Type} `{!Sage.MatroidLib M}.
Variable from_graph6 : string → result Graph.
Variable automorphism_orbits : Graph → list (list nat).
Variable open_error : string → option exn.

Lemma io_for_app {A} (body : A → io unit) (xs ys : list A)
    (fs : gmap string string) :
  io_for (xs ++ ys) body fs =
  match io_for xs body fs with
  | (Ok _, fs1) => io_for ys body fs1
  | (Raise e, fs1) => (Raise e, fs1)
  end.
Proof.
  revert fs. induction xs as [|x xs IH]; intros fs; [done|].
  simpl. unfold mbind, io_bind.
  destruct (body x fs) as [[[]|e] fs1]; [apply IH | done].
Qed.

Lemma graphs_from_txt_run (graph_path graph_write content : string)
    (fs : gmap string string) :
  fs !! graph_path = Some content →
  graphs_from_txt from_graph6 automorphism_orbits open_error
       graph_path graph_write fs =
  io_for (PyStr.lines content)
    (classify_line from_graph6 automorphism_orbits open_error
       graph_write) fs.
Proof.
  intros Hfile. unfold graphs_from_txt, mbind, io_bind, read_file.
  by rewrite Hfile.
Qed.

(** X5: every line the loop takes from a file is non-empty, so [line[-1]]
    never raises there; and a line that ends with its newline is handed to
    the decoder as its text, without the newline and otherwise intact. *)
Theorem file_line_to_decoder (content line : string) :
  line ∈ PyStr.lines content →
  (∃ g6_string, g6_string_of line = Ok g6_string) ∧
  (∀ text, line = text_line text → g6_string_of line = Ok text).
Proof.
  intros Hline.
  destruct (StringFacts.lines_shape content line Hline)
    as (init & c & Hchars & Hfresh).
  assert (Hlast : PyStr.last_char line = Ok c)
    by (apply StringFacts.last_char_Ok; by exists init).
  assert (Hg6 : g6_string_of line =
    Ok (String.string_of_list_ascii
          (filter (λ x, x ≠ c) (String.list_ascii_of_string line)))).
  { unfold g6_string_of. rewrite Hlast.
    unfold mbind, result_bind, mret, result_ret.
    by rewrite StringFacts.replace_char_filter. }
  split; [by eexists|].
  intros text Htext. rewrite Hg6. f_equal.
  assert (Hsplit : init ++ [c] =
                   String.list_ascii_of_string text ++ [PyStr.newline]).
  { rewrite <- Hchars, Htext. unfold text_line.
    by rewrite StringMore.list_ascii_append. }
  apply app_inj_tail in Hsplit as [-> ->].
  rewrite Hchars, filter_app, filter_cons_False, filter_nil, app_nil_r
    by (by intros ?).
  rewrite StringFacts.filter_all.
  - apply String.string_of_list_ascii_of_string.
  - apply Forall_forall. intros x Hx ->. done.
Qed.

(** X6: a file whose first part ends with a newline is processed as that
    part followed by the rest: the loop runs over the lines of the first
    part and, unless that raises, continues with the lines of the rest on
    the files the first part has left. *)
Theorem graphs_from_txt_split
    (graph_path graph_write c1 c2 : string) (fs : gmap string string) :
  fs !! graph_path = Some (c1 +:+ c2) →
  PyStr.last_char c1 = Ok PyStr.newline →
  graphs_from_txt from_graph6 automorphism_orbits open_error
       graph_path graph_write fs =
  match io_for (PyStr.lines c1)
          (classify_line from_graph6 automorphism_orbits open_error
       graph_write) fs with
  | (Ok _, fs1) =>
      io_for (PyStr.lines c2)
        (classify_line from_graph6 automorphism_orbits open_error
       graph_write) fs1
  | (Raise e, fs1) => (Raise e, fs1)
  end.
Proof.
  intros Hfile Hlast.
  rewrite (graphs_from_txt_run _ _ _ _ Hfile).
  rewrite (StringMore.lines_append _ _ Hlast). apply io_for_app.
Qed.

(** X7: a line on which the round raises ends the run with that exception:
    the files are as the earlier lines and that round have left them, and
    no later line of the file is looked at. *)
Theorem graphs_from_txt_stops
    (graph_path graph_write content line : string) (pre rest : list string)
    (fs fs1 fs2 : gmap string string) (e : exn) :
  fs !! graph_path = Some content →
  PyStr.lines content = pre ++ line :: rest →
  io_for pre (classify_line from_graph6 automorphism_orbits open_error
       graph_write) fs
    = (Ok (), fs1) →
  classify_line from_graph6 automorphism_orbits open_error
       graph_write line fs1
    = (Raise e, fs2) →
  graphs_from_txt from_graph6 automorphism_orbits open_error
       graph_path graph_write fs
    = (Raise e, fs2).
Proof.
  intros Hfile Hlines Hpre Hline.
  rewrite (graphs_from_txt_run _ _ _ _ Hfile), Hlines, io_for_app, Hpre.
  simpl. unfold mbind, io_bind. by rewrite Hline.
Qed.

(** *** What a run does to the files *)

Lemma extends_refl (fs : gmap string string) : extends fs fs.
Proof.
  intros path old Hold. exists EmptyString.
  by rewrite StringMore.append_nil_r.
Qed.

Lemma extends_trans (fs1 fs2 fs3 : gmap string string) :
  extends fs1 fs2 → extends fs2 fs3 → extends fs1 fs3.
Proof.
  intros H12 H23 path old Hold.
  destruct (H12 path old Hold) as (added1 & H1).
  destruct (H23 path _ H1) as (added2 & H2).
  exists (added1 +:+ added2). by rewrite <- StringMore.append_assoc.
Qed.

Lemma same_outside_refl (P : string → Prop) (fs : gmap string string) :
  same_outside P fs fs.
Proof. by intros path _. Qed.

Lemma same_outside_trans (P : string → Prop) (fs1 fs2 fs3 : gmap string string) :
  same_outside P fs1 fs2 → same_outside P fs2 fs3 → same_outside P fs1 fs3.
Proof.
  intros H12 H23 path HP. by rewrite (H23 path HP), (H12 path HP).
Qed.

Lemma append_file_extends (path text : string) (fs : gmap string string) :
  extends fs (append_file open_error path text fs).2.
Proof.
  unfold append_file. destruct (open_error path); [apply extends_refl|].
  intros path' old Hold. cbn [snd].
  destruct (decide (path = path')) as [->|Hne].
  - exists text. by rewrite lookup_insert_eq, Hold.
  - exists EmptyString. by rewrite lookup_insert_ne, StringMore.append_nil_r.
Qed.

Lemma append_file_same_outside (P : string → Prop) (path text : string)
    (fs : gmap string string) :
  P path → same_outside P fs (append_file open_error path text fs).2.
Proof.
  intros HP. unfold append_file.
  destruct (open_error path); [apply same_outside_refl|].
  intros path' HP'. cbn [snd].
  rewrite lookup_insert_ne; [done|]. by intros ->.
Qed.

(** One round only adds text at the end of files, and only to the two output
    files of a partition. *)
Lemma classify_line_files (graph_write line : string)
    (fs : gmap string string) :
  let fs' :=
    (classify_line from_graph6 automorphism_orbits open_error
       graph_write
       line fs).2 in
  extends fs fs' ∧ same_outside (output_path graph_write) fs fs'.
Proof.
  cbn zeta. rewrite classify_line_run.
  destruct (g6_string_of line) as [g6_string|e];
    [|split; [apply extends_refl | apply same_outside_refl]].
  destruct (from_graph6 g6_string) as [my_graph|e];
    [|split; [apply extends_refl | apply same_outside_refl]].
  destruct (partition (degree_sequence my_graph)) as [key|e];
    [|split; [apply extends_refl | apply same_outside_refl]].
  destruct (no_rigid_subchains my_graph 3);
    [|split; [apply extends_refl | apply same_outside_refl]].
  assert (Hb : output_path graph_write
                 (graph_write +:+ "baranov_" +:+ PyStr.str_list key))
    by (exists key; by left).
  assert (Ha : output_path graph_write
                 (graph_write +:+ "assur_" +:+ PyStr.str_list key))
    by (exists key; by right).
  pose proof (append_file_extends
                (graph_write +:+ "baranov_" +:+ PyStr.str_list key)
                (g6_string +:+ String PyStr.newline EmptyString) fs) as Hext.
  pose proof (append_file_same_outside (output_path graph_write) _
                (g6_string +:+ String PyStr.newline EmptyString) fs Hb)
    as Hout.
  destruct (append_file open_error _ _ fs) as [[[]|e] fs1];
    cbn [snd] in Hext, Hout; [|done].
  destruct (number_assur automorphism_orbits my_graph) as [label|e]; [|done].
  split.
  - eapply extends_trans; [exact Hext | apply append_file_extends].
  - eapply same_outside_trans; [exact Hout|].
    by apply append_file_same_outside.
Qed.

Lemma io_for_files (graph_write : string) (lines : list string)
    (fs : gmap string string) :
  let fs' :=
    (io_for lines
       (classify_line from_graph6 automorphism_orbits open_error
       graph_write) fs).2 in
  extends fs fs' ∧ same_outside (output_path graph_write) fs fs'.
Proof.
  cbn zeta. revert fs. induction lines as [|line lines IH]; intros fs.
  - split; [apply extends_refl | apply same_outside_refl].
  - simpl. unfold mbind, io_bind.
    pose proof (classify_line_files graph_write line fs) as [Hext Hout].
    cbn zeta in Hext, Hout.
    destruct (classify_line _ _ _ graph_write line fs) as [[[]|e] fs1];
      [|done].
    destruct (IH fs1) as [Hext' Hout'].
    split; [by eapply extends_trans | by eapply same_outside_trans].
Qed.

(** X8: whatever its outcome, a run of [graphs_from_txt] keeps every file
    that existed and only adds text at the end of files; the files it
    changes or creates are the [baranov_] and [assur_] files of partitions
    under [graph_write].  When the input file is missing the run raises
    [FileNotFoundError] and changes nothing. *)
Theorem graphs_from_txt_files (graph_path graph_write : string)
    (fs : gmap string string) :
  let run :=
    graphs_from_txt from_graph6 automorphism_orbits open_error
       graph_path graph_write fs
  in
  extends fs run.2 ∧
  same_outside (output_path graph_write) fs run.2 ∧
  (fs !! graph_path = None → run = (Raise FileNotFoundError, fs)).
Proof.
  cbn zeta. destruct (fs !! graph_path) as [content|] eqn:Hfile.
  - rewrite (graphs_from_txt_run _ _ _ _ Hfile).
    destruct (io_for_files graph_write (PyStr.lines content) fs) as [? ?].
    by split_and!.
  - unfold graphs_from_txt, mbind, io_bind, read_file. rewrite Hfile.
    split_and!; [apply extends_refl | apply same_outside_refl | done].
Qed.

Lemma output_path_prefix (graph_write path : string) :
  output_path graph_write path → String.prefix graph_write path = true.
Proof. intros [key [-> | ->]]; apply StringMore.prefix_append. Qed.

(** X9: [process] leaves every file outside ["my_output/"] as it was, its
    input file included. *)
Theorem process_keeps_other_files (graph_path path : string)
    (fs : gmap string string) :
  String.prefix "my_output/" path = false →
  (process from_graph6 automorphism_orbits open_error graph_path fs).2 !! path
  = fs !! path.
Proof.
  intros Hprefix. unfold process.
  destruct (fs !! graph_path) as [content|] eqn:Hfile.
  - rewrite (graphs_from_txt_run _ _ _ _ Hfile).
    destruct (io_for_files "my_output/" (PyStr.lines content) fs) as [_ Hout].
    apply Hout. intros Hpath%output_path_prefix. congruence.
  - unfold graphs_from_txt, mbind, io_bind, read_file. by rewrite Hfile.
Qed.

(** X10: when both output files of the partition can be opened, the two
    records of a passing round go to two different files, so both are there
    afterwards: the [baranov_] file of the partition ends with the graph6
    line and its [assur_] file with the orbit count. *)
Theorem passing_round_records
    (graph_write line g6_string label : string) (my_graph : Graph)
    (key : list Z) (fs : gmap string string) :
  let baranov := graph_write +:+ "baranov_" +:+ PyStr.str_list key in
  let assur := graph_write +:+ "assur_" +:+ PyStr.str_list key in
  let fs' :=
    (classify_line from_graph6 automorphism_orbits open_error
       graph_write
       line fs).2 in
  g6_string_of line = Ok g6_string →
  from_graph6 g6_string = Ok my_graph →
  partition (degree_sequence my_graph) = Ok key →
  no_rigid_subchains my_graph 3 = true →
  number_assur automorphism_orbits my_graph = Ok label →
  open_error baranov = None →
  open_error assur = None →
  baranov ≠ assur ∧
  fs' !! baranov =
    Some (default EmptyString (fs !! baranov) +:+ text_line g6_string) ∧
  fs' !! assur =
    Some (default EmptyString (fs !! assur) +:+ text_line label).
Proof.
  intros baranov assur fs' Hg6 Hgraph Hkey Htest Hlabel Hbaranov Hassur.
  assert (Hne : baranov ≠ assur).
  { subst baranov assur. intros Heq. apply String.app_inj in Heq.
    discriminate Heq. }
  split; [done|]. subst fs'.
  rewrite classify_line_run, Hg6, Hgraph, Hkey, Htest.
  fold baranov assur.
  rewrite (append_file_Ok _ _ _ _ Hbaranov), Hlabel.
  rewrite (append_file_Ok _ _ _ _ Hassur). cbn [snd].
  split.
  - by rewrite lookup_insert_ne, lookup_insert_eq.
  - by rewrite lookup_insert_eq, lookup_insert_ne.
Qed.

(** X16: a passing round whose [baranov_] file cannot be opened raises the
    exception of [open] and writes nothing; when that file can be opened
    and the [assur_] file cannot, the round raises after the graph6 line is
    written, and the graph is left recorded without its orbit count. *)
Theorem failed_open_round
    (graph_write line g6_string : string) (my_graph : Graph)
    (key : list Z) (fs : gmap string string) :
  let baranov := graph_write +:+ "baranov_" +:+ PyStr.str_list key in
  let assur := graph_write +:+ "assur_" +:+ PyStr.str_list key in
  let round :=
    classify_line from_graph6 automorphism_orbits open_error
       graph_write
      line fs in
  g6_string_of line = Ok g6_string →
  from_graph6 g6_string = Ok my_graph →
  partition (degree_sequence my_graph) = Ok key →
  no_rigid_subchains my_graph 3 = true →
  (∀ e, open_error baranov = Some e → round = (Raise e, fs)) ∧
  (∀ e label,
     open_error baranov = None →
     number_assur automorphism_orbits my_graph = Ok label →
     open_error assur = Some e →
     round =
       (Raise e,
        <[baranov := default EmptyString (fs !! baranov)
                     +:+ text_line g6_string]> fs)).
Proof.
  intros baranov assur round Hg6 Hgraph Hkey Htest. subst round.
  rewrite classify_line_run, Hg6, Hgraph, Hkey, Htest.
  fold baranov assur. split.
  - intros e Hbaranov. by rewrite (append_file_Raise _ _ _ _ _ Hbaranov).
  - intros e label Hbaranov Hlabel Hassur.
    rewrite (append_file_Ok _ _ _ _ Hbaranov), Hlabel.
    by rewrite (append_file_Raise _ _ _ _ _ Hassur).
Qed.

End LoopMore.

(** ** The orbit count *)

Section OrbitCount.
Variable automorphism_orbits : Graph → list (list nat).

Lemma mapM_first_Ok (orbits : list (list nat)) :
  Forall (λ orbit, orbit ≠ []) orbits →
  ∃ firsts,
    mapM (λ vertex : list nat,
            match vertex with
            | [] => Raise IndexError
            | v :: _ => Ok v
            end) orbits = Ok firsts ∧
    length firsts = length orbits.
Proof.
  induction 1 as [|orbit orbits Hne _ (firsts & IH & Hlen)]; simpl.
  - by exists [].
  - destruct orbit as [|v orbit]; [done|]. rewrite IH. simpl.
    exists (v :: firsts). by rewrite <- Hlen.
Qed.

Lemma mapM_first_Raise (orbits : list (list nat)) :
  Exists (λ orbit, orbit = []) orbits →
  mapM (λ vertex : list nat,
          match vertex with
          | [] => Raise IndexError
          | v :: _ => Ok v
          end) orbits = Raise IndexError.
Proof.
  induction 1 as [orbit orbits -> | orbit orbits _ IH]; simpl; [done|].
  destruct orbit as [|v orbit]; [done|]. by rewrite IH.
Qed.

(** X11: when no orbit is empty, [number_assur] returns the number of
    orbits in decimal, so two graphs get the same label exactly when they
    have the same number of orbits; an empty orbit makes it raise
    [IndexError]. *)
Theorem number_assur_label (g : Graph) :
  (Forall (λ orbit, orbit ≠ []) (automorphism_orbits g) →
   number_assur automorphism_orbits g
   = Ok (PyStr.str (Py.len (automorphism_orbits g))) ∧
   ∀ g', Forall (λ orbit, orbit ≠ []) (automorphism_orbits g') →
     (number_assur automorphism_orbits g = number_assur automorphism_orbits g'
      ↔ length (automorphism_orbits g) = length (automorphism_orbits g'))) ∧
  (Exists (λ orbit, orbit = []) (automorphism_orbits g) →
   number_assur automorphism_orbits g = Raise IndexError).
Proof.
  assert (Hok : ∀ g0, Forall (λ orbit, orbit ≠ []) (automorphism_orbits g0) →
    number_assur automorphism_orbits g0
    = Ok (PyStr.str (Py.len (automorphism_orbits g0)))).
  { intros g0 Hall. unfold number_assur.
    destruct (mapM_first_Ok _ Hall) as (firsts & -> & Hlen).
    simpl. unfold Py.len. by rewrite Hlen. }
  split.
  - intros Hall. split; [by apply Hok|].
    intros g' Hall'. rewrite (Hok g Hall), (Hok g' Hall'). split.
    + intros [= Heq]. apply (inj pretty) in Heq. unfold Py.len in Heq. lia.
    + intros Hlen. unfold Py.len. by rewrite Hlen.
  - intros Hex. unfold number_assur. by rewrite (mapM_first_Raise _ Hex).
Qed.

End OrbitCount.

(** ** The degree partition, further *)

Module PartitionMore.

Lemma count_cons (d : Z) (ds : list Z) (i : Z) :
  count (d :: ds) i = (if decide (d = i) then 1 else 0) + count ds i.
Proof.
  unfold count, Py.len. rewrite filter_cons.
  destruct (decide (d = i)); simpl; lia.
Qed.

Lemma count_nonneg (ds : list Z) (i : Z) : 0 ≤ count ds i.
Proof. unfold count, Py.len. lia. Qed.

Lemma count_pos (ds : list Z) (i : Z) : i ∈ ds → 1 ≤ count ds i.
Proof.
  intros Hi. unfold count, Py.len.
  assert (Hin : i ∈ filter (λ x, x = i) ds) by (by apply list_elem_of_filter).
  destruct (filter (λ x, x = i) ds); [by apply elem_of_nil in Hin|].
  simpl. lia.
Qed.

Lemma sum_indicator (d : Z) (l : list Z) :
  NoDup l →
  foldr Z.add 0 ((λ i, if decide (d = i) then 1 else 0) <$> l) =
  if decide (d ∈ l) then 1 else 0.
Proof.
  induction 1 as [|i l Hi _ IH]; [done|].
  rewrite fmap_cons. cbn [foldr]. rewrite IH.
  destruct (decide (d = i)) as [->|Hne].
  - rewrite (decide_False (P := i ∈ l)) by done.
    rewrite decide_True by apply list_elem_of_here. lia.
  - destruct (decide (d ∈ l)).
    + rewrite decide_True by (by apply list_elem_of_further). lia.
    + rewrite decide_False; [lia|].
      intros [?|?]%elem_of_cons; done.
Qed.

(** The counts over a list of different values add up to the number of
    entries with one of these values. *)
Lemma sum_counts (ds l : list Z) :
  NoDup l →
  foldr Z.add 0 (count ds <$> l) = Py.len (filter (λ d, d ∈ l) ds).
Proof.
  intros Hl. induction ds as [|d ds IH].
  - unfold Py.len. simpl. induction l as [|i l IHl]; [done|].
    apply NoDup_cons in Hl as [_ Hl]. rewrite fmap_cons. cbn [foldr].
    by rewrite (IHl Hl).
  - assert (Hsplit :
      foldr Z.add 0 (count (d :: ds) <$> l) =
      foldr Z.add 0 ((λ i, if decide (d = i) then 1 else 0) <$> l)
      + foldr Z.add 0 (count ds <$> l)).
    { clear. induction l as [|i l IHl]; [done|].
      rewrite !fmap_cons. cbn [foldr]. rewrite IHl, count_cons. lia. }
    rewrite Hsplit, IH, (sum_indicator d l Hl), filter_cons.
    unfold Py.len. destruct (decide (d ∈ l)); simpl; lia.
Qed.

(** X12: in a partition key no entry is negative and the entries add up to
    the number of vertices of degree 2 or more; the key is empty exactly
    when every degree is below 2, and otherwise its last entry, the number
    of vertices of the largest degree, is at least 1. *)
Theorem partition_key_shape (ds key : list Z) :
  partition ds = Ok key →
  Forall (λ entry, 0 ≤ entry) key ∧
  foldr Z.add 0 key = Py.len (filter (λ d, 2 ≤ d) ds) ∧
  (key = [] ↔ Forall (λ d, d < 2) ds) ∧
  (∀ entry, last key = Some entry → 1 ≤ entry).
Proof.
  unfold partition. destruct (py_max ds) as [top|e] eqn:Hmax; [|done].
  simpl. intros [= <-].
  apply PartitionFacts.py_max_Ok in Hmax as [Hin Hall].
  rewrite Forall_forall in Hall. split_and!.
  - apply Forall_forall. intros entry (i & -> & _)%list_elem_of_fmap.
    apply count_nonneg.
  - unfold Py.range. rewrite sum_counts by apply NoDup_seqZ.
    f_equal. f_equal. apply BinaryFacts.filter_ext_in.
    intros d Hd. rewrite elem_of_seqZ. specialize (Hall d Hd). lia.
  - unfold Py.range. split.
    + intros Hnil%fmap_nil_inv. apply Forall_forall. intros d Hd.
      specialize (Hall d Hd).
      destruct (decide (top < 2)) as [|Hge]; [lia|].
      rewrite seqZ_cons in Hnil by lia. done.
    + intros Hlow. rewrite Forall_forall in Hlow. specialize (Hlow top Hin).
      by rewrite seqZ_nil by lia.
  - intros entry. unfold Py.range. rewrite fmap_last.
    destruct (decide (top < 2)) as [|Hge]; [by rewrite seqZ_nil by lia|].
    replace (top + 1 - 2) with (Z.of_nat (S (Z.to_nat (top - 2)))) by lia.
    rewrite seqZ_S, last_snoc. simpl. intros [= <-].
    replace (2 + Z.of_nat (Z.to_nat (top - 2))) with top by lia.
    by apply count_pos.
Qed.

Lemma partition_key_shape_diamond :
  partition (degree_sequence diamond) = Ok [2; 2] ∧
  foldr Z.add 0 [2; 2] = Py.len (filter (λ d, 2 ≤ d) (degree_sequence diamond)).
Proof.
  assert (Hkey : partition (degree_sequence diamond) = Ok [2; 2])
    by (vm_compute; reflexivity).
  split; [exact Hkey|].
  exact (proj1 (proj2 (partition_key_shape _ _ Hkey))).
Defined.

End PartitionMore.

(** ** Listing the input files *)

Section ListingMore.
Variable listdir : string → result (list string).
Variable isfile : string → bool.

(** Among different names, removing the first occurrence removes the name. *)
Lemma list_remove_NoDup (x : string) (xs : list string) :
  NoDup xs →
  match list_remove x xs with
  | Ok without => without
  | Raise _ => xs
  end = filter (λ y, y ≠ x) xs.
Proof.
  induction 1 as [|y xs Hy Hnd IH]; [done|].
  cbn [list_remove]. rewrite filter_cons.
  destruct (decide (y = x)) as [->|Hne].
  - rewrite decide_False by (by intros ?).
    symmetry. apply StringFacts.filter_all, Forall_forall.
    intros z Hz ->. done.
  - rewrite decide_True by done.
    destruct (list_remove x xs) as [without|e]; simpl in *; by f_equal.
Qed.

(** X13: for a directory with different names, [list_subfiles] returns, in
    the order of the listing, [my_path + name] for every name other than
    ["desktop.ini"] for which [isfile(join(my_path, name))] holds; a failure
    of the listing is passed on. *)
Theorem list_subfiles_result (my_path : string) :
  (∀ names, listdir my_path = Ok names → NoDup names →
     list_subfiles listdir isfile my_path
     = Ok ((λ name, my_path +:+ name) <$>
             filter (λ name, isfile (OsPath.join my_path name) = true
                             ∧ name ≠ "desktop.ini") names)) ∧
  (∀ e, listdir my_path = Raise e →
     list_subfiles listdir isfile my_path = Raise e).
Proof.
  split.
  - intros names Hnames Hnd. unfold list_subfiles. rewrite Hnames. simpl.
    rewrite list_remove_NoDup by (by apply NoDup_filter).
    rewrite list_filter_filter. do 2 f_equal.
    apply list_filter_iff. intros name. tauto.
  - intros e He. unfold list_subfiles. by rewrite He.
Qed.

(** What [list.remove] returns keeps elements of the list only. *)
Lemma list_remove_subseteq (x : string) (xs without : list string) :
  list_remove x xs = Ok without → without ⊆ xs.
Proof.
  revert without. induction xs as [|y xs IH]; intros without; [done|].
  cbn [list_remove]. destruct (decide (y = x)) as [->|Hne].
  - intros [= <-]. apply list_subseteq_cons. done.
  - destruct (list_remove x xs) as [rest|e]; [|done]. intros [= <-].
    intros z [->|Hz]%elem_of_cons; [apply list_elem_of_here|].
    apply list_elem_of_further. by apply (IH rest).
Qed.

(** [join] of a non-empty directory path and a relative name. *)
Lemma join_relative (my_path name : string) (c : Ascii.ascii) :
  PyStr.last_char my_path = Ok c →
  String.prefix "/" name = false →
  (c = Ascii.ascii_of_nat 47 → OsPath.join my_path name = my_path +:+ name) ∧
  (c ≠ Ascii.ascii_of_nat 47 →
   OsPath.join my_path name = my_path +:+ "/" +:+ name ∧
   OsPath.join my_path name ≠ my_path +:+ name).
Proof.
  intros Hlast Hrel. unfold OsPath.join. rewrite Hrel, Hlast. split.
  - intros ->. by rewrite decide_True.
  - intros Hc. rewrite decide_False by done. split; [done|].
    intros Heq. apply String.app_inj in Heq.
    destruct name as [|x name]; [done|].
    injection Heq as <- _. simpl in Hrel. by destruct name.
Qed.

(** What [list_subfiles] returns: each path is [my_path + name] for a name
    of the listing that passed the test [isfile(join(my_path, name))]. *)
Lemma list_subfiles_elements (my_path : string) (names paths : list string) :
  listdir my_path = Ok names →
  list_subfiles listdir isfile my_path = Ok paths →
  ∀ path, path ∈ paths →
    ∃ name, name ∈ names ∧ path = my_path +:+ name ∧
            isfile (OsPath.join my_path name) = true.
Proof.
  intros Hnames. unfold list_subfiles. rewrite Hnames. simpl.
  intros [= <-] path (name & -> & Hname)%list_elem_of_fmap.
  exists name.
  assert (Hin : name ∈ filter
            (λ graph_file, isfile (OsPath.join my_path graph_file) = true)
            names).
  { destruct (list_remove _ _) as [without|e] eqn:Hremove; [|done].
    by apply (list_remove_subseteq _ _ _ Hremove). }
  apply list_elem_of_filter in Hin as [Hfile Hin]. done.
Qed.

(** X14: the names of a directory listing are relative.  When [my_path]
    ends with a slash, every path [list_subfiles] returns is a path it has
    tested, and [isfile] holds of it.  When [my_path] is not empty and does
    not end with a slash, every path it returns is [my_path + name] for a
    name it has tested as [my_path + "/" + name], another path, so that a
    returned path need not be a file. *)
Theorem list_subfiles_tested_path (my_path : string)
    (names paths : list string) (c : Ascii.ascii) :
  PyStr.last_char my_path = Ok c →
  listdir my_path = Ok names →
  Forall (λ name, String.prefix "/" name = false) names →
  list_subfiles listdir isfile my_path = Ok paths →
  (c = Ascii.ascii_of_nat 47 → Forall (λ path, isfile path = true) paths) ∧
  (c ≠ Ascii.ascii_of_nat 47 →
   Forall (λ path, ∃ name,
             name ∈ names ∧ path = my_path +:+ name ∧
             isfile (my_path +:+ "/" +:+ name) = true ∧
             path ≠ my_path +:+ "/" +:+ name) paths).
Proof.
  intros Hlast Hnames Hrel Hpaths.
  pose proof (list_subfiles_elements _ _ _ Hnames Hpaths) as Helem.
  rewrite Forall_forall in Hrel.
  split; intros Hc; apply Forall_forall; intros path Hpath;
    destruct (Helem path Hpath) as (name & Hname & -> & Hfile);
    destruct (join_relative my_path name c Hlast (Hrel name Hname))
      as [Hslash Hnone].
  - by rewrite <- (Hslash Hc).
  - destruct (Hnone Hc) as [Hjoin Hne]. exists name.
    rewrite Hjoin in Hfile, Hne. split_and!; [done..|].
    intros Heq. by apply Hne.
Qed.

End ListingMore.

Module ListingExamples.

Lemma list_subfiles_result_sample :
  list_subfiles sample_listdir sample_isfile "my_input/"
  = Ok ["my_input/a.txt"; "my_input/b.txt"].
Proof.
  rewrite (proj1 (list_subfiles_result sample_listdir sample_isfile
                    "my_input/")
             ["a.txt"; "desktop.ini"; "sub"; "b.txt"] eq_refl).
  - vm_compute. reflexivity.
  - apply (bool_decide_unpack _). vm_compute. exact I.
Defined.

(** The directory named with its final slash and without: in the second
    listing no returned path is a file. *)
Lemma list_subfiles_tested_path_sample :
  Forall (λ path, sample_isfile path = true)
    ["my_input/a.txt"; "my_input/b.txt"] ∧
  list_subfiles sample_listdir sample_isfile "my_input"
    = Ok ["my_inputa.txt"; "my_inputb.txt"] ∧
  Forall (λ path, ∃ name,
            name ∈ ["a.txt"; "desktop.ini"; "sub"; "b.txt"] ∧
            path = "my_input" +:+ name ∧
            sample_isfile ("my_input" +:+ "/" +:+ name) = true ∧
            path ≠ "my_input" +:+ "/" +:+ name)
    ["my_inputa.txt"; "my_inputb.txt"] ∧
  Forall (λ path, sample_isfile path = false)
    ["my_inputa.txt"; "my_inputb.txt"].
Proof.
  assert (Hrel : Forall (λ name, String.prefix "/" name = false)
                   ["a.txt"; "desktop.ini"; "sub"; "b.txt"])
    by (repeat constructor).
  assert (Hrun : list_subfiles sample_listdir sample_isfile "my_input"
                 = Ok ["my_inputa.txt"; "my_inputb.txt"])
    by (vm_compute; reflexivity).
  split_and!.
  - apply (list_subfiles_tested_path sample_listdir sample_isfile
             "my_input/" ["a.txt"; "desktop.ini"; "sub"; "b.txt"]
             ["my_input/a.txt"; "my_input/b.txt"]
             (Ascii.ascii_of_nat 47) eq_refl eq_refl Hrel);
      vm_compute; reflexivity.
  - exact Hrun.
  - apply (list_subfiles_tested_path sample_listdir sample_isfile
             "my_input" ["a.txt"; "desktop.ini"; "sub"; "b.txt"]
             ["my_inputa.txt"; "my_inputb.txt"]
             (Ascii.ascii_of_nat 116) eq_refl eq_refl Hrel Hrun).
    vm_compute. discriminate.
  - repeat constructor.
Defined.

End ListingExamples.

(** ** The loop on concrete files *)

Module LoopExamples.
Import SageModel.

(** A file whose last line has no newline: the first line reaches the
    decoder as ["Cl"]. *)
Lemma file_line_to_decoder_sample :
  text_line "Cl" ∈ PyStr.lines (text_line "Cl" +:+ "DCC") ∧
  g6_string_of (text_line "Cl") = Ok "Cl".
Proof.
  assert (Hin : text_line "Cl" ∈ PyStr.lines (text_line "Cl" +:+ "DCC"))
    by (apply (bool_decide_unpack _); vm_compute; exact I).
  split; [exact Hin|].
  exact (proj2 (file_line_to_decoder _ _ Hin) "Cl" eq_refl).
Defined.

(** A file of two lines, cut after the first. *)
Lemma graphs_from_txt_split_sample :
  graphs_from_txt (M := matroid) Graph6.from_graph6 one_orbit all_writable
    "my_input/graphs.txt" "my_output/"
    {["my_input/graphs.txt" := text_line "C~" +:+ text_line "Cl"]}
  = io_for (PyStr.lines (text_line "Cl"))
      (classify_line (M := matroid) Graph6.from_graph6 one_orbit all_writable "my_output/")
      {["my_input/graphs.txt" := text_line "C~" +:+ text_line "Cl"]}.
Proof.
  assert (Hfile :
    ({["my_input/graphs.txt" := text_line "C~" +:+ text_line "Cl"]}
       : gmap string string) !! "my_input/graphs.txt"
    = Some (text_line "C~" +:+ text_line "Cl"))
    by (vm_compute; reflexivity).
  rewrite (graphs_from_txt_split (M := matroid) Graph6.from_graph6 one_orbit all_writable
             "my_input/graphs.txt" "my_output/"
             (text_line "C~") (text_line "Cl") _ Hfile eq_refl).
  vm_compute. reflexivity.
Defined.

(** A file of three lines whose second line is cut short: the first graph
    is recorded, the decoder fails on the second line, and the third line,
    the four-bar linkage again, is never recorded. *)
Lemma graphs_from_txt_stops_sample :
  graphs_from_txt (M := matroid) Graph6.from_graph6 one_orbit all_writable
    "my_input/graphs.txt" "my_output/"
    {["my_input/graphs.txt" :=
        text_line "Cl" +:+ text_line "D" +:+ text_line "Cl"]}
  = (Raise RuntimeError,
     <["my_output/assur_[4]" := text_line "1"]>
       (<["my_output/baranov_[4]" := text_line "Cl"]>
          {["my_input/graphs.txt" :=
              text_line "Cl" +:+ text_line "D" +:+ text_line "Cl"]})).
Proof.
  apply (graphs_from_txt_stops (M := matroid) Graph6.from_graph6 one_orbit all_writable
           "my_input/graphs.txt" "my_output/"
           (text_line "Cl" +:+ text_line "D" +:+ text_line "Cl")
           (text_line "D") [text_line "Cl"] [text_line "Cl"]
           _
           (<["my_output/assur_[4]" := text_line "1"]>
              (<["my_output/baranov_[4]" := text_line "Cl"]>
                 {["my_input/graphs.txt" :=
                     text_line "Cl" +:+ text_line "D" +:+ text_line "Cl"]})));
    vm_compute; reflexivity.
Defined.

(** After [process] the input file is as it was. *)
Lemma process_keeps_other_files_sample :
  (process (M := matroid) Graph6.from_graph6 one_orbit all_writable "my_input/graphs.txt"
     {["my_input/graphs.txt" := text_line "C~" +:+ text_line "Cl"]}).2
    !! "my_input/graphs.txt"
  = Some (text_line "C~" +:+ text_line "Cl").
Proof.
  rewrite (process_keeps_other_files (M := matroid) Graph6.from_graph6
             one_orbit all_writable "my_input/graphs.txt" "my_input/graphs.txt" _ eq_refl).
  vm_compute. reflexivity.
Defined.

(** The round of the four-bar linkage on an empty directory. *)
Lemma passing_round_records_sample :
  (classify_line (M := matroid) Graph6.from_graph6 one_orbit all_writable
     "my_output/" (text_line "Cl") ∅).2 !! "my_output/baranov_[4]"
  = Some (text_line "Cl") ∧
  (classify_line (M := matroid) Graph6.from_graph6 one_orbit all_writable
     "my_output/" (text_line "Cl") ∅).2 !! "my_output/assur_[4]"
  = Some (text_line "1").
Proof.
  refine (proj2 (passing_round_records (M := matroid) Graph6.from_graph6
                   one_orbit all_writable "my_output/" (text_line "Cl") "Cl" "1"
                   {| vertices := [0; 1; 2; 3]%nat;
                      edges := [(0, 1); (1, 2); (0, 3); (2, 3)]%nat |}
                   [4] ∅ _ _ _ _ _ _ _)); vm_compute; reflexivity.
Defined.

(** The same round in a working directory without ["my_output/"]. *)
Lemma failed_open_round_no_directory :
  classify_line (M := matroid) Graph6.from_graph6 one_orbit
    no_output_directory "my_output/" (text_line "Cl") ∅
  = (Raise FileNotFoundError, ∅).
Proof.
  refine (proj1 (failed_open_round (M := matroid) Graph6.from_graph6
                   one_orbit no_output_directory "my_output/"
                   (text_line "Cl") "Cl"
                   {| vertices := [0; 1; 2; 3]%nat;
                      edges := [(0, 1); (1, 2); (0, 3); (2, 3)]%nat |}
                   [4] ∅ _ _ _ _) FileNotFoundError _);
    vm_compute; reflexivity.
Defined.

End LoopExamples.

(** ** Triangles are rigid subchains *)

Module TriangleFacts.
Import GF2 SageModel.
Local Open Scope N_scope.

Lemma span_nil_inv (v : N) : span [] v → v = 0.
Proof. inversion 1 as [|x w Hx]; [done|]. by apply elem_of_nil in Hx. Qed.

Lemma span_singleton_inv (x v : N) : span [x] v → v = 0 ∨ v = x.
Proof.
  intros [Hv|Hv]%GF2Facts.span_cons_inv; apply span_nil_inv in Hv.
  - by left.
  - right. by apply N.lxor_eq.
Qed.

Lemma rank_one (x : N) : x ≠ 0 → rank [x] = 1%Z.
Proof.
  intros Hx. change [x] with ([] ++ [x]).
  rewrite GF2Facts.rank_snoc_out; [done|]. by intros ?%span_nil_inv.
Qed.

Lemma rank_two (x y : N) : x ≠ 0 → y ≠ 0 → x ≠ y → rank [x; y] = 2%Z.
Proof.
  intros Hx Hy Hxy. change [x; y] with ([x] ++ [y]).
  rewrite GF2Facts.rank_snoc_out.
  - by rewrite rank_one.
  - intros [?|?]%span_singleton_inv; done.
Qed.

Lemma rank_three (x y : N) :
  x ≠ 0 → y ≠ 0 → x ≠ y → rank [x; y; N.lxor x y] = 2%Z.
Proof.
  intros Hx Hy Hxy. change [x; y; N.lxor x y] with ([x; y] ++ [N.lxor x y]).
  rewrite GF2Facts.rank_snoc_in.
  - by rewrite rank_two.
  - apply span_add; [apply list_elem_of_here|].
    apply GF2Facts.span_elem, list_elem_of_further, list_elem_of_here.
Qed.

(** *** The columns of an incidence matrix *)

Lemma lxor_bit (b1 b2 : bool) (a1 a2 : N) :
  N.lxor (N.b2n b1 + 2 * a1) (N.b2n b2 + 2 * a2) =
  N.b2n (xorb b1 b2) + 2 * N.lxor a1 a2.
Proof.
  apply N.bits_inj. intros n. rewrite N.lxor_spec.
  rewrite !(N.add_comm (N.b2n _)).
  destruct (N.zero_or_succ n) as [->|[m ->]].
  - by rewrite !N.testbit_0_r.
  - by rewrite !N.testbit_succ_r, N.lxor_spec.
Qed.

Lemma testbit_of_bits (bs : list bool) (i : nat) :
  N.testbit (of_bits bs) (N.of_nat i) = default false (bs !! i).
Proof.
  revert i. induction bs as [|b bs IH]; intros i; simpl.
  - by destruct i.
  - rewrite (N.add_comm (N.b2n b)). destruct i as [|i].
    + by rewrite N.testbit_0_r.
    + rewrite Nat2N.inj_succ, N.testbit_succ_r. apply IH.
Qed.

Lemma parity_incidence (v' p q : nat) (e : nat * nat) :
  joins e p q →
  Z.odd (incidence v' e) = xorb (bool_decide (v' = p)) (bool_decide (v' = q)).
Proof.
  intros [-> | ->]; unfold incidence; cbn [fst snd];
    repeat case_decide; repeat case_bool_decide; simplify_eq; done.
Qed.

(** The column of an edge is the sum of the indicators of its ends. *)
Lemma column_edge (g : Graph) (i : nat) (e : nat * nat) (p q : nat) :
  edges g !! i = Some e → joins e p q →
  column (incidence_matrix g) i =
  N.lxor (indicator (vertices g) p) (indicator (vertices g) q).
Proof.
  intros Hi He. unfold column, indicator, incidence_matrix. cbn [rows].
  induction (vertices g) as [|v' vs IH]; [done|].
  rewrite !fmap_cons. cbn [of_bits foldr]. rewrite lxor_bit.
  rewrite list_lookup_fmap, Hi. cbn [fmap option_fmap option_map default].
  unfold id. rewrite (parity_incidence v' p q e He). f_equal. f_equal. exact IH.
Qed.

Lemma indicator_ne (vs : list nat) (p q : nat) :
  p ∈ vs → p ≠ q → indicator vs p ≠ indicator vs q.
Proof.
  intros [i Hi]%list_elem_of_lookup Hpq Heq.
  assert (Hbit : N.testbit (indicator vs p) (N.of_nat i)
                 = N.testbit (indicator vs q) (N.of_nat i)) by (by rewrite Heq).
  unfold indicator in Hbit.
  rewrite !testbit_of_bits, !list_lookup_fmap, Hi in Hbit. simpl in Hbit.
  rewrite bool_decide_true, bool_decide_false in Hbit; done.
Qed.

Lemma lxor_ne_0 (x y : N) : x ≠ y → N.lxor x y ≠ 0.
Proof. intros Hne Hz. by apply N.lxor_eq in Hz. Qed.

Lemma lxor_ne_l (x y : N) : y ≠ 0 → x ≠ N.lxor x y.
Proof.
  intros Hy Heq. apply Hy.
  assert (Hy' : N.lxor x (N.lxor x y) = y)
    by (by rewrite <- N.lxor_assoc, N.lxor_nilpotent, N.lxor_0_l).
  rewrite <- Heq, N.lxor_nilpotent in Hy'. done.
Qed.

Lemma lxor_ne_r (x y : N) : x ≠ 0 → y ≠ N.lxor x y.
Proof. rewrite N.lxor_comm. apply lxor_ne_l. Qed.

(** *** A matroid of three elements of rank 2 without coloop *)

Local Open Scope Z_scope.

Ltac decide_elem :=
  repeat match goal with
  | |- context [decide_rel elem_of ?x ?l] =>
      let H := fresh "Hin" in
      destruct (decide_rel elem_of x l) as [H|H];
      [ try (exfalso; rewrite ?elem_of_cons, ?elem_of_nil in H;
             by intuition congruence)
      | try (exfalso; apply H; rewrite ?elem_of_cons;
             by intuition congruence) ];
      cbn [list_difference list_intersection app foldl fst snd]
  end.

Lemma three_connected (m : matroid) (p q r : nat) :
  E m = [p; q; r] → p ≠ q → p ≠ r → q ≠ r →
  rk m [] = 0 → rk m [p] = 1 → rk m [p; q] = 2 → rk m [p; q; r] = 2 →
  rk m [q; r] = 2 → rk m [p; r] = 2 →
  is_connected m = true.
Proof.
  intros HE Hpq Hpr Hqr H0 Hp Hpq2 Hpqr Hqr2 Hpr2.
  assert (HB : basis m = [p; q]).
  { unfold basis. rewrite HE. cbn [foldl app].
    rewrite H0, Hp. destruct (decide (0 < 1)) as [_|?]; [|lia]. cbn [app].
    rewrite Hp, Hpq2. destruct (decide (1 < 2)) as [_|?]; [|lia]. cbn [app].
    rewrite Hpq2, Hpqr. by destruct (decide (2 < 2)) as [?|_]; [lia|]. }
  assert (HC : circuit m [p; q; r] = [p; q; r]).
  { unfold circuit, Py.len. cbn [foldl length list_difference].
    decide_elem. rewrite Hqr2. rewrite decide_True by done.
    cbn [foldl list_difference]. decide_elem.
    rewrite Hpr2. rewrite decide_True by done.
    cbn [foldl list_difference]. decide_elem.
    rewrite Hpq2. by rewrite decide_True by done. }
  unfold is_connected, components. rewrite HB, HE.
  cbn [list_difference]. decide_elem. cbn [foldl app]. rewrite HC.
  unfold merge_circuit, list_union.
  cbn [fmap list_fmap foldl list_intersection].
  repeat (decide_elem; rewrite decide_True by done;
          cbn [foldl list_intersection list_difference app]).
  done.
Qed.

Lemma list_difference_in_sublists (l k : list nat) :
  list_difference l k ∈ sublists l.
Proof.
  induction l as [|x l IH]; cbn [list_difference sublists];
    [apply list_elem_of_here|].
  apply elem_of_app. destruct (decide_rel elem_of x k).
  - by left.
  - right. apply list_elem_of_fmap. eauto.
Qed.

(** *** Three columns [x], [y] and [x + y] *)

Section Columns.
Variable A : Matrix.
Variables a b c : nat.
Variables x y : N.
Hypothesis Ha : column A a = x.
Hypothesis Hb : column A b = y.
Hypothesis Hc : column A c = N.lxor x y.
Hypothesis Hx : x ≠ 0%N.
Hypothesis Hy : y ≠ 0%N.
Hypothesis Hxy : x ≠ y.
Hypothesis HaE : a ∈ E (binary A).
Hypothesis HbE : b ∈ E (binary A).
Hypothesis HcE : c ∈ E (binary A).

Lemma tri_distinct : a ≠ b ∧ b ≠ c ∧ a ≠ c.
Proof using Ha Hb Hc Hx Hy Hxy.
  split_and!; intros Heq.
  - apply Hxy. by rewrite <- Ha, <- Hb, Heq.
  - apply (lxor_ne_r x y Hx). by rewrite <- Hc, <- Heq, Hb.
  - apply (lxor_ne_l x y Hy). by rewrite <- Hc, <- Heq, Ha.
Qed.

Lemma tri_rk1 (p : nat) : p ∈ [a; b; c] → rk (binary A) [p] = 1.
Proof using Ha Hb Hc Hx Hy Hxy.
  rewrite !elem_of_cons, elem_of_nil. cbn [rk binary fmap list_fmap].
  intros [->|[->|[->|[]]]]; apply rank_one.
  - by rewrite Ha.
  - by rewrite Hb.
  - rewrite Hc. by apply lxor_ne_0.
Qed.

Lemma tri_rk2 (p q : nat) :
  p ∈ [a; b; c] → q ∈ [a; b; c] → p ≠ q → rk (binary A) [p; q] = 2.
Proof using Ha Hb Hc Hx Hy Hxy.
  pose proof (lxor_ne_0 x y Hxy) as Hz.
  pose proof (lxor_ne_l x y Hy) as Hxz.
  pose proof (lxor_ne_r x y Hx) as Hyz.
  rewrite !elem_of_cons, !elem_of_nil. cbn [rk binary fmap list_fmap].
  intros [->|[->|[->|[]]]] [->|[->|[->|[]]]] Hne; try done;
    rewrite ?Ha, ?Hb, ?Hc; apply rank_two; done.
Qed.

Lemma tri_rk3 (l : list nat) :
  l ⊆ [a; b; c] → [a; b; c] ⊆ l → rk (binary A) l = 2.
Proof using Ha Hb Hc Hx Hy Hxy.
  intros H1 H2. rewrite (BinaryFacts.rk_same_elements A l [a; b; c]) by done.
  cbn [rk binary fmap list_fmap]. rewrite Ha, Hb, Hc. by apply rank_three.
Qed.

Lemma tri_sub_elements (e : nat) :
  e ∈ E (delete (binary A) (tri_co_flat A a b c)) ↔ e ∈ [a; b; c].
Proof using HaE HbE HcE.
  cbn [E delete]. unfold tri_co_flat.
  rewrite !list_elem_of_difference. split.
  - intros [He Hn]. destruct (decide (e ∈ [a; b; c])); [done|].
    exfalso. by apply Hn.
  - intros He. split; [|tauto].
    apply elem_of_cons in He as [->|He]; [done|].
    apply elem_of_cons in He as [->|He]; [done|].
    by apply list_elem_of_singleton in He as ->.
Qed.

Lemma tri_sub_groundset : E (delete (binary A) (tri_co_flat A a b c)) ≡ₚ [a; b; c].
Proof using Ha Hb Hc Hx Hy Hxy HaE HbE HcE.
  destruct tri_distinct as (Hab & Hbc & Hac).
  apply NoDup_Permutation.
  - apply NoDup_list_difference, BinaryFacts.NoDup_E.
  - repeat (apply NoDup_cons; split);
      rewrite ?elem_of_cons, ?elem_of_nil; [tauto..|apply NoDup_nil_2].
  - apply tri_sub_elements.
Qed.

Lemma tri_connected : is_connected (delete (binary A) (tri_co_flat A a b c)) = true.
Proof using Ha Hb Hc Hx Hy Hxy HaE HbE HcE.
  pose proof tri_sub_groundset as Hperm.
  assert (Hnd : NoDup (E (delete (binary A) (tri_co_flat A a b c))))
    by apply NoDup_list_difference, BinaryFacts.NoDup_E.
  pose proof (Permutation_length Hperm) as Hlen.
  destruct (E (delete (binary A) (tri_co_flat A a b c))) as [|p [|q [|r [|? ?]]]] eqn:HE;
    try done.
  assert (Hin : ∀ e, e ∈ [p; q; r] ↔ e ∈ [a; b; c])
    by (intros e; by rewrite Hperm).
  apply NoDup_cons in Hnd as [Hp Hnd]. apply NoDup_cons in Hnd as [Hq _].
  rewrite !elem_of_cons, elem_of_nil in Hp.
  rewrite !elem_of_cons, elem_of_nil in Hq.
  assert (Hpin : p ∈ [a; b; c]) by (apply Hin, list_elem_of_here).
  assert (Hqin : q ∈ [a; b; c])
    by (apply Hin, list_elem_of_further, list_elem_of_here).
  assert (Hrin : r ∈ [a; b; c])
    by (apply Hin; do 2 apply list_elem_of_further; apply list_elem_of_here).
  apply (three_connected _ p q r); cbn [rk delete];
    [done|tauto|tauto|tauto|done|by apply tri_rk1|apply tri_rk2; tauto|
     |apply tri_rk2; tauto|apply tri_rk2; tauto].
  apply tri_rk3; intros e He; by apply Hin.
Qed.

Lemma tri_sub_rank : full_rank (delete (binary A) (tri_co_flat A a b c)) = 2.
Proof using Ha Hb Hc Hx Hy Hxy HaE HbE HcE.
  unfold full_rank. cbn [rk delete].
  apply tri_rk3; intros e He; by apply tri_sub_elements.
Qed.

Lemma tri_is_flat : is_flat (dual (binary A)) (tri_co_flat A a b c).
Proof using Ha Hb Hc Hx Hy Hxy HaE HbE HcE.
  destruct tri_distinct as (Hab & Hbc & Hac).
  apply Forall_forall. intros e He. cbn [E dual] in He.
  destruct (decide (e ∈ (tri_co_flat A a b c))) as [|HeF]; [by left|]. right.
  assert (HeT : e ∈ [a; b; c]).
  { apply tri_sub_elements. cbn [E delete].
    by apply list_elem_of_difference. }
  assert (Hrest : ∃ p q, p ∈ [a; b; c] ∧ q ∈ [a; b; c] ∧ p ≠ q ∧
            ∀ z, z ∈ [a; b; c] ∧ z ≠ e ↔ z ∈ [p; q]).
  { rewrite !elem_of_cons, elem_of_nil in HeT.
    destruct HeT as [->|[->|[->|[]]]].
    - exists b, c. rewrite !elem_of_cons, !elem_of_nil. split_and!; [tauto..|].
      intros z. rewrite !elem_of_cons, !elem_of_nil.
      split; [intros [[?|[?|[?|[]]]] ?]; tauto|].
      intros [->|[->|[]]]; split; auto.
    - exists a, c. rewrite !elem_of_cons, !elem_of_nil. split_and!; [tauto..|].
      intros z. rewrite !elem_of_cons, !elem_of_nil.
      split; [intros [[?|[?|[?|[]]]] ?]; tauto|].
      intros [->|[->|[]]]; split; auto.
    - exists a, b. rewrite !elem_of_cons, !elem_of_nil. split_and!; [tauto..|].
      intros z. rewrite !elem_of_cons, !elem_of_nil.
      split; [intros [[?|[?|[?|[]]]] ?]; tauto|].
      intros [->|[->|[]]]; split; auto. }
  destruct Hrest as (p & q & Hp & Hq & Hpq & Hrest).
  unfold dual. cbn [rk E].
  assert (H1 : rk (binary A) (list_difference (E (binary A)) (tri_co_flat A a b c)) = 2)
    by apply tri_sub_rank.
  assert (H2 : rk (binary A)
                 (list_difference (E (binary A)) ((tri_co_flat A a b c) ++ [e])) = 2).
  { rewrite (BinaryFacts.rk_same_elements A _ [p; q]);
      [by apply tri_rk2| |].
    - intros z [Hz Hn]%list_elem_of_difference. apply Hrest.
      rewrite elem_of_app, list_elem_of_singleton in Hn. split; [|tauto].
      apply tri_sub_elements. cbn [E delete].
      apply list_elem_of_difference. tauto.
    - intros z [Hz Hne]%Hrest.
      apply tri_sub_elements in Hz. cbn [E delete] in Hz.
      apply list_elem_of_difference in Hz as [Hz Hn].
      apply list_elem_of_difference. split; [done|].
      rewrite elem_of_app, list_elem_of_singleton. tauto. }
  rewrite H1, H2. unfold Py.len. rewrite length_app. cbn [length]. lia.
Qed.

Lemma tri_rigid (s : Z) :
  3 ≤ s → 3 < Py.len (E (binary A)) →
  has_rigid_subchain (M := matroid) (binary A) s.
Proof using Ha Hb Hc Hx Hy Hxy HaE HbE HcE.
  intros Hs Hsize.
  exists (rk (dual (binary A)) (tri_co_flat A a b c)), (tri_co_flat A a b c).
  split; [|split].
  - split; [apply BinaryFacts.dual_rk_bounds|].
    apply EvaluatorModel.dual_rk_le_top.
    + apply NoDup_list_difference, BinaryFacts.NoDup_E.
    + intros e [He _]%list_elem_of_difference. done.
  - apply BinaryFacts.elem_of_flats.
    split; [apply list_difference_in_sublists|].
    split; [apply tri_is_flat|done].
  - unfold rigid_subchain. cbn [Sage.delete Sage.is_connected Sage.rank
      Sage.groundset matroid_lib].
    rewrite tri_connected, tri_sub_rank.
    unfold Py.len at 1 2. rewrite (Permutation_length tri_sub_groundset).
    unfold mobility. cbn [length]. split; [done|]. split; [lia|done].
Qed.

End Columns.

(** X15: a graph with more than three edges that contains a triangle is
    rejected for every screw system of order 3 or more: the three edges of
    the triangle are left by a flat of the dual and are a connected
    sub-matroid of rank 2, of mobility [3 - screw_system]. *)
Theorem triangle_is_rigid (g : Graph) (a b c u v w : nat) (screw_system : Z) :
  triangle g a b c u v w →
  3 < Py.len (edges g) →
  3 ≤ screw_system →
  no_rigid_subchains (M := matroid) g screw_system = false.
Proof.
  intros ((ea & eb & ec & Ha & Hb & Hc & Hja & Hjb & Hjc)
          & Hu & Hv & Hw & Huv & Hvw & Huw) Hsize Hs.
  apply no_rigid_subchains_false.
  set (iu := indicator (vertices g) u).
  set (iv := indicator (vertices g) v).
  set (iw := indicator (vertices g) w).
  apply (tri_rigid (incidence_matrix g) a b c
           (N.lxor iu iv) (N.lxor iv iw)).
  - by apply (column_edge g a ea u v).
  - by apply (column_edge g b eb v w).
  - rewrite (column_edge g c ec u w) by done. fold iu iw.
    rewrite N.lxor_assoc, <- (N.lxor_assoc iv iv iw).
    by rewrite N.lxor_nilpotent, N.lxor_0_l.
  - by apply lxor_ne_0, indicator_ne.
  - by apply lxor_ne_0, indicator_ne.
  - intros Heq.
    assert (Hz : N.lxor iu iw = 0%N).
    { rewrite <- (N.lxor_nilpotent (N.lxor iu iv)) at 1. rewrite Heq at 2.
      rewrite N.lxor_assoc, <- (N.lxor_assoc iv iv iw).
      by rewrite N.lxor_nilpotent, N.lxor_0_l. }
    by apply (lxor_ne_0 iu iw) in Hz;
      [|apply indicator_ne].
  - apply elem_of_seq. apply lookup_lt_Some in Ha. cbn [ncols incidence_matrix]. lia.
  - apply elem_of_seq. apply lookup_lt_Some in Hb. cbn [ncols incidence_matrix]. lia.
  - apply elem_of_seq. apply lookup_lt_Some in Hc. cbn [ncols incidence_matrix]. lia.
  - done.
  - cbn [E binary ncols incidence_matrix]. unfold Py.len in *.
    by rewrite length_seq.
Qed.

End TriangleFacts.

Module MoreExamples.
Import SageModel.

(** Two vertices and no edge: the partition key is empty. *)
Lemma no_rigid_subchains_no_edges_sample :
  partition (degree_sequence {| vertices := [0; 1]%nat; edges := [] |})
  = Ok [].
Proof.
  apply (proj2 (EvaluatorModel.no_rigid_subchains_no_edges [0; 1]%nat 3)).
  discriminate.
Defined.

(** A run on an empty directory. *)
Lemma graphs_from_txt_files_missing :
  graphs_from_txt (M := matroid) Graph6.from_graph6 one_orbit all_writable
    "my_input/graphs.txt" "my_output/" ∅
  = (Raise FileNotFoundError, ∅).
Proof.
  apply (graphs_from_txt_files (M := matroid) Graph6.from_graph6 one_orbit all_writable
           "my_input/graphs.txt" "my_output/" ∅).
  reflexivity.
Defined.

(** The four-bar linkage with all its vertices in one orbit has label 1. *)
Lemma number_assur_label_four_bar :
  number_assur one_orbit four_bar = Ok (PyStr.str 1).
Proof.
  assert (Hall : Forall (λ orbit, orbit ≠ []) (one_orbit four_bar))
    by (repeat constructor; discriminate).
  exact (proj1 (proj1 (number_assur_label one_orbit four_bar) Hall)).
Defined.

(** The triangle of [tri_pendant] under screw system 3. *)
Lemma triangle_is_rigid_tri_pendant :
  triangle tri_pendant 0 1 2 0 1 2 ∧
  no_rigid_subchains (M := matroid) tri_pendant 3 = false.
Proof.
  assert (Htri : triangle tri_pendant 0 1 2 0 1 2).
  { split.
    - exists (0, 1)%nat, (1, 2)%nat, (0, 2)%nat.
      repeat split; by left.
    - repeat split; try discriminate;
        apply (bool_decide_unpack _); vm_compute; exact I. }
  split; [exact Htri|].
  apply (TriangleFacts.triangle_is_rigid tri_pendant 0 1 2 0 1 2 3 Htri);
    [vm_compute; reflexivity | lia].
Defined.

End MoreExamples.
